(** * MusicFileTools: album artwork and album-tag tools for .m4a folders

    A shallow embedding of [albumArt.py] and [metadata.py].  The two scripts
    are sequential programs over a file system, two HTTP services
    (MusicBrainz and the Cover Art Archive), the PIL image codec and the
    mutagen tag container.  The embedding keeps the scripts' control flow:
    every Python function is a computation in a small state-and-exception
    monad over a [world] (the folders on disk plus the log of observable
    events), and the library calls the scripts make are the fields of one
    record of external collaborators.  The folders of the world are the
    ones the scripts can work in; what the system says about any other
    path (nothing there, a name it refuses, a directory that cannot be
    searched) is part of that record, and [is_dir()] and [exists()] raise
    where Python's do. *)

From Stdlib Require Import String Ascii List ZArith Bool Lia.
From stdpp Require Import base option list gmap strings pretty.
Import ListNotations.
Local Open Scope string_scope.
Local Open Scope Z_scope.

(** ** Data model *)

(** Raw bytes ([bytes] objects, file contents, HTTP bodies). *)
Definition bytes : Type := list Byte.byte.

(** [if image_data:] on a value that is [None] or a [bytes] object. *)
Definition truthy_bytes (o : option bytes) : bool :=
  match o with
  | Some (_ :: _) => true
  | _ => false
  end.

(** [if title:] on a value that is [None] or a [str]. *)
Definition truthy_str (o : option string) : bool :=
  match o with
  | Some (String _ _) => true
  | _ => false
  end.

(** A decoded PIL image: only the attributes the scripts inspect are
    named, the raster is carried along opaquely. *)
Record image : Type := Image {
  mode : string;
  width : N;
  height : N;
  pixels : N -> N -> list N
}.

Inductive imageformat : Type := FORMAT_JPEG | FORMAT_PNG.

(** [MP4Cover(data, imageformat=...)]. *)
Record MP4Cover : Type := mkMP4Cover {
  cover_data : bytes;
  cover_format : imageformat
}.

(** The tag container of one file as mutagen exposes it: the text atoms
    (each a list of strings) and the embedded-cover atom ['covr']. *)
Record MP4 : Type := mkMP4 {
  text_tags : gmap string (list string);
  covr : option (list MP4Cover)
}.

(** The three text atoms the scripts touch: ['\xa9alb'], ['\xa9ART'],
    ['\xa9nam']. *)
Definition copyright_sign : ascii := ascii_of_nat 169.
Definition key_alb : string := String copyright_sign "alb".
Definition key_ART : string := String copyright_sign "ART".
Definition key_nam : string := String copyright_sign "nam".

(** One entry matched by [folder.glob("*.m4a")].  [content] is what
    [MP4(path)] yields (an exception message when the file cannot be
    parsed); [save_error] is the exception [audio.save()] raises on this
    file, if any.  A save that raises leaves the file as it was. *)
Record m4a_file : Type := mkFile {
  file_name : string;
  file_stem : string;
  content : string + MP4;
  save_error : option string
}.

(** The entry [cover.jpg] of a folder: what reading it yields and the
    exception [unlink()] raises on it, if any. *)
Record cover_file : Type := mkCover {
  cover_read : string + bytes;
  unlink_error : option string
}.

(** A directory: its [*.m4a] entries in glob order and its [cover.jpg]. *)
Record directory : Type := mkDir {
  m4a_files : list m4a_file;
  cover_jpg : option cover_file
}.

(** Observable events, in the order the program causes them. *)
Inductive event : Type :=
| Print (line : string)
| GetRecording (query : string)
| GetCoverArt (release_id : string)
| Sleep (milliseconds : Z).

(** The state the scripts run against.  [log] holds the events so far,
    most recent first. *)
Record world : Type := mkWorld {
  fs : gmap string directory;
  log : list event
}.

(** ** External collaborators *)

(** A MusicBrainz release entry: [release['id']] raises [KeyError] when
    the key is missing. *)
Record release : Type := mkRelease { release_id_field : option string }.

(** A recording entry: [recording.get('releases')]; a missing key and an
    empty list are both falsy, so both are the empty list here. *)
Record recording : Type := mkRecording { releases : list release }.

(** [response.json()]: an exception message, or the document's
    ['recordings'] list (missing key: empty list). *)
Definition json_doc : Type := (string + list recording)%type.

(** What [requests.get] does: raise, or return a response. *)
Inductive http (A : Type) : Type :=
| RequestException (msg : string)
| Response (status_code : Z) (payload : A).
Arguments RequestException {A} msg.
Arguments Response {A} status_code payload.

(** What the operating system answers about a path that is not one of
    the folders of the world.  [Path.is_dir()] and [Path.exists()] turn
    "no such file" into [False] and let every other [OSError] through. *)
Inductive path_status : Type :=
| Missing
    (* nothing of that name, or not a directory *)
| StatFails (msg : string)
    (* stat() of the path fails with another error, for one a name of
       more than 255 bytes: "[Errno 36] File name too long" *)
| Unsearchable (entries : list (string * string)).
    (* a directory that can be listed but not searched: the name and stem
       of its *.m4a entries; every access to an entry of it fails with
       "[Errno 13] Permission denied" *)

(** Library, system and network behaviour the scripts depend on.  The
    two services answer as a function of the request and of everything
    that happened before it.  PIL decodes lazily, so a damaged file may
    make [convert], [thumbnail] or [save] raise instead of [Image.open];
    all of them sit in the same [try] of [resize_image], and the exception
    is placed at [Image_open] here. *)
Record externals : Type := mkExternals {
  (* PIL *)
  Image_open : bytes -> string + image;
  Image_convert : image -> string -> image;
  Image_thumbnail : image -> N * N -> image;
  Image_save_JPEG : image -> N -> bytes;
  (* pathlib *)
  Path_name : string -> string;
  Path_status : string -> path_status;
  (* GET https://musicbrainz.org/ws/2/recording/?query=<quoted query>&fmt=json&limit=1 *)
  musicbrainz : list event -> string -> http json_doc;
  (* GET https://coverartarchive.org/release/<release_id>/front *)
  coverartarchive : list event -> string -> http bytes
}.

(** [Image.new(mode, (w, h), color=c)]: a flat image. *)
Definition Image_new (m : string) (size : N * N) (color : list N) : image :=
  Image m (fst size) (snd size) (fun _ _ => color).

(** ** The execution monad *)

(** How a computation ends: with a value, with a Python exception
    (an [Exception] subclass, carrying its message), or with
    [sys.exit(code)]. *)
Inductive result (A : Type) : Type :=
| Return (a : A)
| Raise (msg : string)
| SystemExit (code : Z).
Arguments Return {A} a.
Arguments Raise {A} msg.
Arguments SystemExit {A} code.

Definition M (A : Type) : Type := world -> result A * world.

Definition ret {A : Type} (a : A) : M A := fun w => (Return a, w).

Definition bind {A B : Type} (m : M A) (k : A -> M B) : M B :=
  fun w =>
    match m w with
    | (Return a, w') => k a w'
    | (Raise msg, w') => (Raise msg, w')
    | (SystemExit c, w') => (SystemExit c, w')
    end.

Definition raise {A : Type} (msg : string) : M A := fun w => (Raise msg, w).

Definition sys_exit {A : Type} (code : Z) : M A := fun w => (SystemExit code, w).

(** [try: body  except Exception as e: handler e].  [SystemExit] is not an
    [Exception] and passes through. *)
Definition try_except {A : Type} (body : M A) (handler : string -> M A) : M A :=
  fun w =>
    match body w with
    | (Raise msg, w') => handler msg w'
    | other => other
    end.

Notation "'let!' x ':=' m 'in' k" := (bind m (fun x => k))
  (at level 10, x pattern, m at level 100, k at level 200).
Notation "m '>>' k" := (bind m (fun _ => k))
  (at level 100, k at level 200, right associativity).

(** [for x in l: s = body x s]. *)
Fixpoint for_each {A S : Type} (l : list A) (body : A -> S -> M S) (s : S) : M S :=
  match l with
  | [] => ret s
  | x :: rest => let! s' := body x s in for_each rest body s'
  end.

(** The process exit status of a script whose top level ran as [r]. *)
Definition exit_status {A : Type} (r : result A) : Z :=
  match r with
  | Return _ => 0
  | Raise _ => 1
  | SystemExit c => c
  end.

(** *** Primitive effects *)

Definition emit (e : event) : M unit :=
  fun w => (Return tt, mkWorld (fs w) (e :: log w)).

(** [print(line)].  Standard output is taken to accept every line: a
    stream that cannot encode the check marks the scripts print, or that
    is closed, makes [print] itself raise, and no run of that kind is
    described here. *)
Definition print (line : string) : M unit := emit (Print line).

(** [time.sleep(1.1)] is [sleep 1100]. *)
Definition sleep (ms : Z) : M unit := emit (Sleep ms).

Definition permission_denied : string := "[Errno 13] Permission denied".

(** [Path(folder_path).is_dir()]. *)
Definition is_dir (E : externals) (folder_path : string) : M bool :=
  fun w =>
    match fs w !! folder_path with
    | Some _ => (Return true, w)
    | None =>
        match Path_status E folder_path with
        | Missing => (Return false, w)
        | StatFails msg => (Raise msg, w)
        | Unsearchable _ => (Return true, w)
        end
    end.

(** A path produced by [folder.glob("*.m4a")]. *)
Record m4a_path : Type := mkPath {
  parent : string;
  index : nat;
  name : string;
  stem : string
}.

Definition paths_of (folder_path : string) (d : directory) : list m4a_path :=
  imap (fun i f => mkPath folder_path i (file_name f) (file_stem f)) (m4a_files d).

(** [list(folder.glob("*.m4a"))]. *)
Definition glob_m4a (E : externals) (folder_path : string) : M (list m4a_path) :=
  fun w =>
    match fs w !! folder_path with
    | Some d => (Return (paths_of folder_path d), w)
    | None =>
        match Path_status E folder_path with
        | Unsearchable entries =>
            (Return (imap (fun i e => mkPath folder_path i (fst e) (snd e)) entries), w)
        | _ => (Return [], w)
        end
    end.

Definition lookup_file (w : world) (p : m4a_path) : option m4a_file :=
  d ← fs w !! parent p; m4a_files d !! index p.

(** [MP4(m4a_file)]: parse the file's tags.  A path that [glob_m4a]
    listed and the world does not hold lies in an unsearchable folder. *)
Definition MP4_open (p : m4a_path) : M MP4 :=
  fun w =>
    match lookup_file w p with
    | Some f =>
        match content f with
        | inr audio => (Return audio, w)
        | inl msg => (Raise msg, w)
        end
    | None => (Raise permission_denied, w)
    end.

Definition store_file (w : world) (p : m4a_path) (f : m4a_file) : world :=
  match fs w !! parent p with
  | Some d =>
      mkWorld (<[parent p := mkDir (<[index p := f]> (m4a_files d)) (cover_jpg d)]> (fs w))
              (log w)
  | None => w
  end.

(** [audio.save()] for the tags [audio] loaded from [p]. *)
Definition MP4_save (p : m4a_path) (audio : MP4) : M unit :=
  fun w =>
    match lookup_file w p with
    | Some f =>
        match save_error f with
        | Some msg => (Raise msg, w)
        | None =>
            (Return tt,
             store_file w p (mkFile (file_name f) (file_stem f) (inr audio) None))
        end
    | None => (Raise permission_denied, w)
    end.

(** [(folder / "cover.jpg").exists()]. *)
Definition cover_exists (E : externals) (folder_path : string) : M bool :=
  fun w =>
    match fs w !! folder_path with
    | Some d => (Return (bool_decide (is_Some (cover_jpg d))), w)
    | None =>
        match Path_status E folder_path with
        | Unsearchable _ => (Raise permission_denied, w)
        | _ => (Return false, w)
        end
    end.

(** [open(cover_file, 'rb').read()]. *)
Definition cover_read_bytes (folder_path : string) : M bytes :=
  fun w =>
    match fs w !! folder_path with
    | Some d =>
        match cover_jpg d with
        | Some c =>
            match cover_read c with
            | inr b => (Return b, w)
            | inl msg => (Raise msg, w)
            end
        | None => (Raise "No such file or directory", w)
        end
    | None => (Raise permission_denied, w)
    end.

(** [cover_file.unlink()]. *)
Definition cover_unlink (folder_path : string) : M unit :=
  fun w =>
    match fs w !! folder_path with
    | Some d =>
        match cover_jpg d with
        | Some c =>
            match unlink_error c with
            | Some msg => (Raise msg, w)
            | None =>
                (Return tt,
                 mkWorld (<[folder_path := mkDir (m4a_files d) None]> (fs w)) (log w))
            end
        | None => (Raise "No such file or directory", w)
        end
    | None => (Raise permission_denied, w)
    end.

(** ** albumArt.py *)

Definition dquote : string := String (ascii_of_nat 34) EmptyString.
Definition nl : string := String (ascii_of_nat 10) EmptyString.

(** [sep.join(parts)]. *)
Fixpoint join (sep : string) (parts : list string) : string :=
  match parts with
  | [] => EmptyString
  | [x] => x
  | x :: rest => x +:+ sep +:+ join sep rest
  end.

(** [s * n]. *)
Fixpoint str_repeat (s : string) (n : nat) : string :=
  match n with
  | O => EmptyString
  | S k => s +:+ str_repeat s k
  end.

(** How an f-string renders a value that is [None] or a [str]. *)
Definition fmt (o : option string) : string :=
  match o with
  | Some s => s
  | None => "None"
  end.

(** [sep in s] and [s.split(sep, 1)]: the text before and after the first
    occurrence of [sep], if there is one. *)
Fixpoint split_once (sep s : string) : option (string * string) :=
  if String.prefix sep s then
    Some (EmptyString, String.substring (String.length sep)
                         (String.length s - String.length sep) s)
  else
    match s with
    | EmptyString => None
    | String c rest =>
        match split_once sep rest with
        | Some (before, after) => Some (String c before, after)
        | None => None
        end
    end.

(** [str.isspace] of one character.  Text is held as UTF-8, so a
    character is one to three bytes here.  The characters Python counts
    as white space are U+0009 to U+000D, U+001C to U+0020, U+0085, U+00A0,
    U+1680, U+2000 to U+200A, U+2028, U+2029, U+202F, U+205F and U+3000. *)
Definition is_whitespace (c : ascii) : bool :=
  let n := nat_of_ascii c in
  ((9 <=? n) && (n <=? 13) || (28 <=? n) && (n <=? 32))%nat.

(** U+0085 is C2 85 and U+00A0 is C2 A0. *)
Definition is_whitespace2 (c1 c2 : ascii) : bool :=
  let a := nat_of_ascii c1 in
  let b := nat_of_ascii c2 in
  ((a =? 194) && ((b =? 133) || (b =? 160)))%nat.

(** U+1680 is E1 9A 80, U+2000 to U+200A are E2 80 80 to E2 80 8A,
    U+2028 is E2 80 A8, U+2029 is E2 80 A9, U+202F is E2 80 AF, U+205F is
    E2 81 9F and U+3000 is E3 80 80. *)
Definition is_whitespace3 (c1 c2 c3 : ascii) : bool :=
  let a := nat_of_ascii c1 in
  let b := nat_of_ascii c2 in
  let c := nat_of_ascii c3 in
  ((a =? 225) && (b =? 154) && (c =? 128)
   || (a =? 226) && (b =? 128)
      && ((128 <=? c) && (c <=? 138) || (c =? 168) || (c =? 169) || (c =? 175))
   || (a =? 226) && (b =? 129) && (c =? 159)
   || (a =? 227) && (b =? 128) && (c =? 128))%nat.

(** Drop the white space a text starts with.  With [backwards] the text
    is read from its end, each character's bytes last to first. *)
Fixpoint strip_leading (backwards : bool) (s : string) : string :=
  match s with
  | String c1 rest1 =>
      if is_whitespace c1 then strip_leading backwards rest1
      else
        match rest1 with
        | String c2 rest2 =>
            if (if backwards then is_whitespace2 c2 c1 else is_whitespace2 c1 c2)
            then strip_leading backwards rest2
            else
              match rest2 with
              | String c3 rest3 =>
                  if (if backwards then is_whitespace3 c3 c2 c1
                      else is_whitespace3 c1 c2 c3)
                  then strip_leading backwards rest3
                  else s
              | EmptyString => s
              end
        | EmptyString => s
        end
  | EmptyString => EmptyString
  end.

Definition lstrip (s : string) : string := strip_leading false s.

(** [s.strip()]. *)
Definition strip (s : string) : string :=
  String.rev (strip_leading true (String.rev (lstrip s))).

Section AlbumArt.
Variable E : externals.

(** [requests.get(url, headers=headers, timeout=10)] on the recording
    search endpoint. *)
Definition requests_get_recording (query : string) : M (Z * json_doc) :=
  fun w =>
    let w' := mkWorld (fs w) (GetRecording query :: log w) in
    match musicbrainz E (log w) query with
    | Response code body => (Return (code, body), w')
    | RequestException msg => (Raise msg, w')
    end.

(** [requests.get(url, timeout=10, allow_redirects=True)] on the cover
    endpoint. *)
Definition requests_get_cover (release_id : string) : M (Z * bytes) :=
  fun w =>
    let w' := mkWorld (fs w) (GetCoverArt release_id :: log w) in
    match coverartarchive E (log w) release_id with
    | Response code body => (Return (code, body), w')
    | RequestException msg => (Raise msg, w')
    end.

(** Lines 31-37: dig the first release id out of the response. *)
Definition first_release_id (body : json_doc) : M (option string) :=
  match body with
  | inl msg => raise msg
  | inr [] => ret None
  | inr (rec0 :: _) =>
      match releases rec0 with
      | [] => ret None
      | rel0 :: _ =>
          match release_id_field rel0 with
          | Some rid => ret (Some rid)
          | None => raise "'id'"
          end
      end
  end.

Definition search_musicbrainz (title artist : option string) : M (option string) :=
  let query_parts :=
    List.app
      (if truthy_str title then ["recording:" +:+ dquote +:+ fmt title +:+ dquote] else [])
      (if truthy_str artist then ["artist:" +:+ dquote +:+ fmt artist +:+ dquote] else []) in
  match query_parts with
  | [] => ret None
  | _ =>
      let query := join " AND " query_parts in
      try_except
        (let! response := requests_get_recording query in
         if fst response =? 200 then first_release_id (snd response)
         else ret None)
        (fun e => print ("  MusicBrainz error: " +:+ e) >> ret None)
  end.

Definition get_cover_art (release_id : string) : M (option bytes) :=
  try_except
    (let! response := requests_get_cover release_id in
     if fst response =? 200 then ret (Some (snd response))
     else ret None)
    (fun e => print ("  Cover Art Archive error: " +:+ e) >> ret None).

Definition search_album_art (title artist : option string) : M (option bytes) :=
  print "  Searching MusicBrainz..." >>
  let! release_id := search_musicbrainz title artist in
  if negb (truthy_str release_id) then
    print "  No recording found" >> ret None
  else
    print "  Found release, fetching cover art..." >>
    let! cover_data := get_cover_art (fmt release_id) in
    if truthy_bytes cover_data then ret cover_data
    else print "  No cover art available" >> ret None.

(** The existence check sits before the [try]: an exception of it is
    not caught here. *)
Definition load_local_cover (folder_path : string) : M (option bytes) :=
  let! present := cover_exists E folder_path in
  if present then
    try_except
      (let! data := cover_read_bytes folder_path in ret (Some data))
      (fun e => print ("  Failed to read cover.jpg: " +:+ e) >> ret None)
  else ret None.

(** [Image.open(BytesIO(image_data))]. *)
Definition open_image (image_data : bytes) : M image :=
  match Image_open E image_data with
  | inr img => ret img
  | inl msg => raise msg
  end.

Definition resize_image (image_data : bytes) (max_size : N) : M (option bytes) :=
  try_except
    (let! img := open_image image_data in
     let img := if negb (String.eqb (mode img) "RGB") then Image_convert E img "RGB" else img in
     let img :=
       if (max_size <? width img)%N || (max_size <? height img)%N
       then Image_thumbnail E img (max_size, max_size) else img in
     ret (Some (Image_save_JPEG E img 95)))
    (fun e => print ("  Failed to process image: " +:+ e) >> ret None).

Definition create_default_artwork (max_size : N) : bytes :=
  let img := Image_new "RGB" (max_size, max_size) [50; 50; 50]%N in
  Image_save_JPEG E img 95.

(** [audio.get(key, [None])[0] if key in audio else None]. *)
Definition first_or_none (audio : MP4) (key : string) : M (option string) :=
  match text_tags audio !! key with
  | Some (v :: _) => ret (Some v)
  | Some [] => raise "list index out of range"
  | None => ret None
  end.

(** [audio['covr'] = [MP4Cover(image_data, imageformat=MP4Cover.FORMAT_JPEG)]]. *)
Definition set_covr (audio : MP4) (image_data : bytes) : MP4 :=
  mkMP4 (text_tags audio) (Some [mkMP4Cover image_data FORMAT_JPEG]).

(** Lines 144-167 of [add_album_art_to_folder]: the search text taken
    from the first file. *)
Definition folder_search_text (folder_path : string) (files : list m4a_path)
  : M (option string * option string) :=
  try_except
    (let! audio :=
       match files with
       | p :: _ => MP4_open p
       | [] => raise "list index out of range"
       end in
     let! album := first_or_none audio key_alb in
     let! artist := first_or_none audio key_ART in
     let! title := first_or_none audio key_nam in
     let search :=
       if truthy_str album then (album, artist)
       else if truthy_str title then (title, artist)
       else (Some (Path_name E folder_path), None) in
     print ("Searching for: " +:+ fmt (fst search)
            +:+ (if truthy_str (snd search) then " by " +:+ fmt (snd search) else EmptyString)) >>
     ret search)
    (fun e =>
       print "Could not read metadata, using folder name" >>
       ret (Some (Path_name E folder_path), None)).

(** Lines 131-177 of [add_album_art_to_folder]: the artwork every file of
    the folder receives, and the flag [used_local_cover]. *)
Definition folder_artwork (folder_path : string) (files : list m4a_path)
  : M (bytes * bool) :=
  print "Looking for cover.jpg..." >>
  let! image_data := load_local_cover folder_path in
  let! found :=
    if truthy_bytes image_data then
      print "Found cover.jpg, using local artwork" >>
      let! image_data := resize_image (default [] image_data) 512 in
      ret (image_data, true)
    else
      print "No cover.jpg found, searching online..." >>
      let! search := folder_search_text folder_path files in
      let! image_data := search_album_art (fst search) (snd search) in
      let! image_data :=
        if truthy_bytes image_data then
          print "Found artwork online, resizing..." >>
          resize_image (default [] image_data) 512
        else ret image_data in
      ret (image_data, false) in
  let! image_data :=
    if negb (truthy_bytes (fst found)) then
      print "Using default artwork" >> ret (create_default_artwork 512)
    else ret (default [] (fst found)) in
  ret (image_data, snd found).

(** Lines 180-189: the body of the write loop, on the counters
    [(succeeded, failed)]. *)
Definition write_shared_cover (image_data : bytes) (p : m4a_path) (counts : nat * nat)
  : M (nat * nat) :=
  try_except
    (let! audio := MP4_open p in
     let audio := set_covr audio image_data in
     MP4_save p audio >>
     print ("✓ " +:+ name p) >>
     ret (S (fst counts), snd counts))
    (fun e =>
       print ("✗ " +:+ name p +:+ ": " +:+ e) >>
       ret (fst counts, S (snd counts))).

(** Lines 200-204. *)
Definition print_results (counts : nat * nat) : M unit :=
  print (nl +:+ "--- Results ---") >>
  print ("Succeeded: " +:+ pretty (fst counts)) >>
  print ("Failed: " +:+ pretty (snd counts)).

Definition add_album_art_to_folder (folder_path : string) : M (nat * nat) :=
  let! valid := is_dir E folder_path in
  if negb valid then
    print ("Error: " +:+ folder_path +:+ " is not a valid directory") >> ret (0, 0)%nat
  else
    let! files := glob_m4a E folder_path in
    match files with
    | [] => print "No .m4a files found in folder" >> ret (0, 0)%nat
    | _ =>
        let! art := folder_artwork folder_path files in
        let! counts := for_each files (write_shared_cover (fst art)) (0, 0)%nat in
        (if snd art && (snd counts =? 0)%nat && (0 <? fst counts)%nat then
           try_except
             (cover_unlink folder_path >>
              print (nl +:+ "✓ Deleted cover.jpg (all files processed successfully)"))
             (fun e => print (nl +:+ "⚠ Could not delete cover.jpg: " +:+ e))
         else ret tt) >>
        print_results counts >>
        ret counts
    end.

(** Lines 229-240 of [add_album_art_per_song]: title and artist of one
    song, from its tags or else from its file name. *)
Definition song_search_text (p : m4a_path) (audio : MP4)
  : M (option string * option string) :=
  let! title := first_or_none audio key_nam in
  let! artist := first_or_none audio key_ART in
  ret (if negb (truthy_str title) && negb (truthy_str artist) then
         let filename := stem p in
         match split_once " - " filename with
         | Some (before, after) => (Some (strip before), Some (strip after))
         | None => (Some filename, artist)
         end
       else (title, artist)).

(** Lines 245-256: the artwork of one song and the counters after it. *)
Definition song_artwork (default_artwork : bytes) (search : option string * option string)
    (counts : nat * nat) : M (bytes * (nat * nat)) :=
  let! image_data := search_album_art (fst search) (snd search) in
  let! image_data :=
    if truthy_bytes image_data then resize_image (default [] image_data) 512
    else ret image_data in
  if negb (truthy_bytes image_data) then
    print "⚠ Using default artwork" >>
    ret (default_artwork, (fst counts, S (snd counts)))
  else ret (default [] image_data, (S (fst counts), snd counts)).

(** Lines 265-267: the handler of the loop's [try]. *)
Definition song_failed (p : m4a_path) (counts : nat * nat) (e : string) : M (nat * nat) :=
  print ("✗ " +:+ name p +:+ ": " +:+ e) >>
  ret (fst counts, S (snd counts)).

(** Lines 225-267: the body of the per-song loop.  The source has one
    [try] around the whole body; the counters it updates at lines 254 and
    256 keep their new value when a later statement raises, so the handler
    is given the counters as they stand at the point of the exception:
    the old ones up to line 256, the updated ones from line 258 on. *)
Definition process_song (default_artwork : bytes) (p : m4a_path) (counts : nat * nat)
  : M (nat * nat) :=
  try_except
    (let! audio := MP4_open p in
     let! search := song_search_text p audio in
     print (nl +:+ name p) >>
     print ("Searching for: " +:+ fmt (fst search)
            +:+ (if truthy_str (snd search) then " by " +:+ fmt (snd search) else EmptyString)) >>
     let! art := song_artwork default_artwork search counts in
     try_except
       (let audio := set_covr audio (fst art) in
        MP4_save p audio >>
        print "✓ Saved" >>
        sleep 1100 >>
        ret (snd art))
       (song_failed p (snd art)))
    (song_failed p counts).

Definition add_album_art_per_song (folder_path : string) : M (nat * nat) :=
  let! valid := is_dir E folder_path in
  if negb valid then
    print ("Error: " +:+ folder_path +:+ " is not a valid directory") >> ret (0, 0)%nat
  else
    let! files := glob_m4a E folder_path in
    match files with
    | [] => print "No .m4a files found in folder" >> ret (0, 0)%nat
    | _ =>
        let default_artwork := create_default_artwork 512 in
        let! counts := for_each files (process_song default_artwork) (0, 0)%nat in
        print_results counts >>
        ret counts
    end.

(** Lines 299-310: one round of the loop over the folders, on the totals
    [(total_succeeded, total_failed)]; [i] counts from 1. *)
Definition process_folder (is_album_mode : bool) (n_folders : nat)
    (item : nat * string) (totals : nat * nat) : M (nat * nat) :=
  let rule := str_repeat "=" 60 in
  print (nl +:+ rule) >>
  print ("Processing folder " +:+ pretty (fst item) +:+ "/" +:+ pretty n_folders
         +:+ ": " +:+ snd item) >>
  print (rule +:+ nl) >>
  let! sf :=
    if is_album_mode then add_album_art_to_folder (snd item)
    else add_album_art_per_song (snd item) in
  ret (fst totals + fst sf, snd totals + snd sf)%nat.

(** The script's [__main__] block, on [sys.argv]. *)
Definition albumArt_main (argv : list string) : M unit :=
  if (length argv <? 2)%nat then
    print "Usage:" >>
    print "  python script.py <folder1> [folder2] [folder3] ...        # Search for each song individually" >>
    print "  python script.py album <folder1> [folder2] [folder3] ...  # Use same artwork for entire folder" >>
    sys_exit 1
  else
    let is_album_mode := bool_decide (argv !! 1%nat = Some "album") in
    let! folders :=
      if is_album_mode then
        if (length argv <? 3)%nat then
          print "Error: at least one folder path required after 'album'" >>
          sys_exit 1
        else ret (drop 2 argv)
      else ret (drop 1 argv) in
    let! totals :=
      for_each (imap (fun i folder_path => (S i, folder_path)) folders)
               (process_folder is_album_mode (length folders)) (0, 0)%nat in
    if (1 <? length folders)%nat then
      let rule := str_repeat "=" 60 in
      print (nl +:+ rule) >>
      print "OVERALL SUMMARY" >>
      print rule >>
      print ("Total folders processed: " +:+ pretty (length folders)) >>
      print ("Total succeeded: " +:+ pretty (fst totals)) >>
      print ("Total failed: " +:+ pretty (snd totals))
    else ret tt.

End AlbumArt.

(** ** metadata.py *)

Section Metadata.
Variable E : externals.

(** Lines 13-27: the body of the loop over the matched files. *)
Definition update_one (album_name : option string) (p : m4a_path) (_ : unit) : M unit :=
  try_except
    (let! audio := MP4_open p in
     let audio :=
       if bool_decide (is_Some (text_tags audio !! key_alb))
       then mkMP4 (delete key_alb (text_tags audio)) (covr audio) else audio in
     let audio :=
       if truthy_str album_name
       then mkMP4 (<[key_alb := [fmt album_name]]> (text_tags audio)) (covr audio)
       else audio in
     MP4_save p audio >>
     print ("✓ " +:+ name p))
    (fun e => print ("✗ " +:+ name p +:+ ": " +:+ e)).

Definition update_m4a_metadata (folder_path : string) (album_name : option string) : M unit :=
  let! valid := is_dir E folder_path in
  if negb valid then
    print ("Error: " +:+ folder_path +:+ " is not a valid directory") >>
    sys_exit 1
  else
    let! files := glob_m4a E folder_path in
    for_each files (update_one album_name) tt.

(** The script's [__main__] block, on [sys.argv]. *)
Definition metadata_main (argv : list string) : M unit :=
  if (length argv <? 3)%nat then
    print "Usage:" >>
    print "  python script.py set <folder> [album_name]" >>
    print "  python script.py del <folder>" >>
    sys_exit 1
  else
    let command := default EmptyString (argv !! 1%nat) in
    let folder_path := default EmptyString (argv !! 2%nat) in
    if String.eqb command "set" then
      let album_name :=
        if (3 <? length argv)%nat then default EmptyString (argv !! 3%nat)
        else Path_name E folder_path in
      update_m4a_metadata folder_path (Some album_name) >>
      print ("Album set to: " +:+ album_name)
    else if String.eqb command "del" then
      update_m4a_metadata folder_path None >>
      print "Album tags removed"
    else
      print ("Unknown command: " +:+ command) >>
      print "Use 'set' or 'del'" >>
      sys_exit 1.

End Metadata.

(** ** Properties of the environment *)

(** The remote requests among the events of a log. *)
Fixpoint requests (l : list event) : list event :=
  match l with
  | [] => []
  | GetRecording q :: rest => GetRecording q :: requests rest
  | GetCoverArt r :: rest => GetCoverArt r :: requests rest
  | _ :: rest => requests rest
  end.

(** The requests and the delays among the events of a log. *)
Fixpoint pacing (l : list event) : list event :=
  match l with
  | [] => []
  | Print _ :: rest => pacing rest
  | e :: rest => e :: pacing rest
  end.

(** What the image library guarantees and the scripts rely on: [convert]
    yields the requested mode, [thumbnail] keeps the mode and fits the
    requested box, the JPEG encoder never produces an empty buffer, and an
    RGB image encoded as JPEG decodes to an RGB image of the same size. *)
Record codec_laws (E : externals) : Prop := {
  convert_mode : forall img m, mode (Image_convert E img m) = m;
  thumbnail_mode : forall img box, mode (Image_thumbnail E img box) = mode img;
  thumbnail_fits : forall img m,
    (width (Image_thumbnail E img (m, m)) <= m)%N /\
    (height (Image_thumbnail E img (m, m)) <= m)%N;
  save_nonempty : forall img q, Image_save_JPEG E img q <> [];
  open_save : forall img q, mode img = "RGB" ->
    exists img', Image_open E (Image_save_JPEG E img q) = inr img' /\
      mode img' = "RGB" /\ width img' = width img /\ height img' = height img
}.

(** ** A small concrete environment

    A toy codec in which an encoded image is a two-byte marker followed
    by its width and height in unary, used to run the scripts on concrete
    folders. *)

Definition is_one (b : Byte.byte) : bool := Byte.eqb b Byte.x01.

Fixpoint count_ones (b : bytes) : nat :=
  match b with
  | x :: rest => if is_one x then S (count_ones rest) else O
  | [] => O
  end.

Fixpoint skip_ones (b : bytes) : bytes :=
  match b with
  | x :: rest => if is_one x then skip_ones rest else b
  | [] => []
  end.

Definition toy_encode (w h : N) : bytes :=
  Byte.xff :: Byte.xd8 ::
    (repeat Byte.x01 (N.to_nat w) ++ Byte.x00 :: repeat Byte.x01 (N.to_nat h))%list.

Definition toy_decode_size (b : bytes) : option (N * N) :=
  match b with
  | m1 :: m2 :: rest =>
      if Byte.eqb m1 Byte.xff && Byte.eqb m2 Byte.xd8 then
        match skip_ones rest with
        | z :: rest' =>
            if Byte.eqb z Byte.x00 then
              match skip_ones rest' with
              | [] => Some (N.of_nat (count_ones rest), N.of_nat (count_ones rest'))
              | _ => None
              end
            else None
        | [] => None
        end
      else None
  | _ => None
  end.

Definition toy_open (b : bytes) : string + image :=
  match toy_decode_size b with
  | Some (w, h) => inr (Image "RGB" w h (fun _ _ => [0; 0; 0]%N))
  | None => inl "cannot identify image file"
  end.

Definition toy_convert (img : image) (m : string) : image :=
  Image m (width img) (height img) (pixels img).

(** Scale into the box, keeping the aspect ratio up to rounding. *)
Definition toy_thumbnail (img : image) (box : N * N) : image :=
  let w := width img in
  let h := height img in
  if (h <=? w)%N then
    Image (mode img) (N.min (fst box) w)
          (N.min (snd box) (N.max 1 (h * N.min (fst box) w / N.max 1 w))) (pixels img)
  else
    Image (mode img) (N.min (fst box) (N.max 1 (w * N.min (snd box) h / N.max 1 h)))
          (N.min (snd box) h) (pixels img).

Definition toy_save (img : image) (quality : N) : bytes :=
  toy_encode (width img) (height img).

(** The text after the last ["/"]. *)
Fixpoint toy_name (s : string) : string :=
  match s with
  | EmptyString => EmptyString
  | String c rest =>
      if Ascii.eqb c "/" then toy_name rest
      else match split_once "/" rest with
           | Some _ => toy_name rest
           | None => s
           end
  end.

(** The toy codec over a given answer of the system about the paths
    outside the world. *)
Definition toy_on (status : string -> path_status)
    (mb : list event -> string -> http json_doc)
    (ca : list event -> string -> http bytes) : externals :=
  mkExternals toy_open toy_convert toy_thumbnail toy_save toy_name status mb ca.

(** Every path outside the world is missing. *)
Definition toy (mb : list event -> string -> http json_doc)
    (ca : list event -> string -> http bytes) : externals :=
  toy_on (fun _ => Missing) mb ca.

(** Services that cannot be reached. *)
Definition mb_offline (_ : list event) (_ : string) : http json_doc :=
  RequestException "Connection refused".
Definition ca_offline (_ : list event) (_ : string) : http bytes :=
  RequestException "Connection refused".

(** Services that know one release and its 600x300 cover. *)
Definition mb_one (_ : list event) (_ : string) : http json_doc :=
  Response 200 (inr [mkRecording [mkRelease (Some "rel-1")]]).
Definition ca_one (_ : list event) (_ : string) : http bytes :=
  Response 200 (toy_encode 600 300).

Definition offline : externals := toy mb_offline ca_offline.
Definition online : externals := toy mb_one ca_one.




Definition tags_of (l : list (string * list string)) : MP4 :=
  mkMP4 (list_to_map l) None.

Definition good_file (nm st : string) (tags : list (string * list string)) : m4a_file :=
  mkFile nm st (inr (tags_of tags)) None.

Definition readonly_file (nm st : string) (tags : list (string * list string)) : m4a_file :=
  mkFile nm st (inr (tags_of tags)) (Some "[Errno 13] Permission denied").

Definition one_folder (d : directory) : world :=
  mkWorld {[ "Album" := d ]} [].

(** The directory ["Album"] of a world, and the tags of its [i]-th file. *)
Definition album_dir (w : world) : option directory := fs w !! "Album".

Definition album_file_tags (w : world) (i : nat) : option MP4 :=
  d ← album_dir w;
  f ← m4a_files d !! i;
  match content f with inr audio => Some audio | inl _ => None end.

(** Two songs, the first on a read-only file; no [cover.jpg]. *)
Definition two_songs : world :=
  one_folder (mkDir [readonly_file "a - b.m4a" "a - b" [];
                     good_file "song.m4a" "song"
                       [(key_nam, ["Yesterday"]); (key_ART, ["Beatles"])]] None).

(** A world without any folder. *)
Definition no_folders : world := mkWorld ∅ [].

(** One tagged song next to a [cover.jpg] that cannot be read, that is
    empty, and that holds bytes no codec decodes. *)
Definition abbey_road : list m4a_file :=
  [good_file "song.m4a" "song" [(key_alb, ["Abbey Road"]); (key_ART, ["Beatles"])]].

Definition unreadable_cover : world :=
  one_folder (mkDir abbey_road (Some (mkCover (inl "[Errno 13] Permission denied") None))).

Definition empty_cover : world :=
  one_folder (mkDir abbey_road (Some (mkCover (inr []) None))).

Definition corrupt_cover : world :=
  one_folder (mkDir abbey_road (Some (mkCover (inr [Byte.x00; Byte.x2a]) None))).

(** The query text of a recording search for a title, with or without an
    artist attached. *)
Definition recording_query (title : string) (artist : option string) : string :=
  let by_title := "recording:" +:+ dquote +:+ title +:+ dquote in
  if truthy_str artist
  then by_title +:+ " AND " +:+ ("artist:" +:+ dquote +:+ fmt artist +:+ dquote)
  else by_title.

(** The first value of a text atom, [None] when the atom is absent. *)
Definition tag (audio : MP4) (key : string) : option string :=
  text_tags audio !! key ≫= head.


(** One writable song with a title and an artist; no [cover.jpg]. *)
Definition yesterday : MP4 := tags_of [(key_nam, ["Yesterday"]); (key_ART, ["Beatles"])].

Definition one_song : world :=
  one_folder (mkDir [mkFile "song.m4a" "song" (inr yesterday) None] None).

(** The bytes of a text, and the characters [str.isspace] holds of, one
    after the other. *)
Definition utf8 (l : list nat) : string :=
  fold_right (fun n s => String (ascii_of_nat n) s) EmptyString l.

Definition unicode_spaces : string :=
  utf8 [9; 10; 11; 12; 13; 28; 29; 30; 31; 32;
        194; 133; 194; 160; 225; 154; 128;
        226; 128; 128; 226; 128; 129; 226; 128; 130; 226; 128; 131; 226; 128; 132;
        226; 128; 133; 226; 128; 134; 226; 128; 135; 226; 128; 136; 226; 128; 137;
        226; 128; 138; 226; 128; 168; 226; 128; 169; 226; 128; 175;
        226; 129; 159; 227; 128; 128]%nat.

(** U+00A0 and U+3000 in UTF-8, and a file stem that has them around
    the artist. *)
Definition no_break_space : string :=
  String (ascii_of_nat 194) (String (ascii_of_nat 160) EmptyString).
Definition ideographic_space : string :=
  String (ascii_of_nat 227) (String (ascii_of_nat 128) (String (ascii_of_nat 128) EmptyString)).
Definition spaced_stem : string :=
  "Title  - " +:+ no_break_space +:+ "Artist - Live" +:+ ideographic_space.

(** One song whose album tag is set; no [cover.jpg]. *)
Definition old_album : world :=
  one_folder (mkDir [good_file "song.m4a" "song" [(key_alb, ["Old"])]] None).

(** ** Specifications of computations *)

(** [m] ends with a value in every world. *)
Definition returns {A : Type} (m : M A) : Prop :=
  forall w, exists a w', m w = (Return a, w').

(** [m] never ends the process. *)
Definition no_exit {A : Type} (m : M A) : Prop :=
  forall w, match fst (m w) with SystemExit _ => False | _ => True end.

(** [m] takes every world to one related to it by [R]. *)
Definition keeps {A : Type} (R : world -> world -> Prop) (m : M A) : Prop :=
  forall w, R w (snd (m w)).

(** No remote request between two worlds. *)
Definition same_requests (w w' : world) : Prop :=
  requests (log w') = requests (log w).

(** Nothing on disk differs between two worlds. *)
Definition same_fs (w w' : world) : Prop := fs w' = fs w.

(** [sys.argv] is accepted by the artwork tool's argument check. *)
Definition argv_accepted (argv : list string) : Prop :=
  (2 <= length argv)%nat /\
  (argv !! 1%nat = Some "album" -> (3 <= length argv)%nat).

(** What [update_one] leaves on disk for a file: the album atom removed
    and, for a truthy [album_name], set again; a file that cannot be
    parsed or saved is left as it was. *)
Definition retagged (album_name : option string) (f : m4a_file) : m4a_file :=
  match content f, save_error f with
  | inr audio, None =>
      let cleared := delete key_alb (text_tags audio) in
      mkFile (file_name f) (file_stem f)
        (inr (mkMP4 (if truthy_str album_name
                     then <[key_alb := [fmt album_name]]> cleared else cleared)
                    (covr audio)))
        None
  | _, _ => f
  end.

(** The entry [cover.jpg] of a folder is the same in two worlds. *)
Definition same_cover (folder_path : string) (w w' : world) : Prop :=
  (cover_jpg <$> fs w' !! folder_path) = (cover_jpg <$> fs w !! folder_path).







(** The image [resize_image] encodes, given the decoded one. *)
Definition normalized (E : externals) (img : image) (max_size : N) : image :=
  let img := if negb (String.eqb (mode img) "RGB") then Image_convert E img "RGB" else img in
  if (max_size <? width img)%N || (max_size <? height img)%N
  then Image_thumbnail E img (max_size, max_size) else img.

(** A file that [MP4(path)] parses and [audio.save()] can write. *)
Definition writable (f : m4a_file) : bool :=
  match content f, save_error f with
  | inr _, None => true
  | _, _ => false
  end.

(** What the write loop of shared mode leaves on disk for a file: the
    cover atom replaced by the one shared image; a file that cannot be
    parsed or saved is left as it was. *)
Definition covered (image_data : bytes) (f : m4a_file) : m4a_file :=
  match content f, save_error f with
  | inr audio, None =>
      mkFile (file_name f) (file_stem f) (inr (set_covr audio image_data)) None
  | _, _ => f
  end.

(** What per-file mode may leave on disk for a file: the file as it was,
    or the same file with its cover atom replaced by some image. *)
Definition recovered (f f' : m4a_file) : Prop :=
  f' = f \/
  exists audio art,
    content f = inr audio /\ save_error f = None /\
    f' = mkFile (file_name f) (file_stem f) (inr (set_covr audio art)) None.

(** No request and no delay between two worlds. *)
Definition same_pacing (w w' : world) : Prop :=
  pacing (log w') = pacing (log w).

(** ** Reasoning about the monad *)

Create HintDb monad.

Lemma returns_ret {A : Type} (a : A) : returns (ret a).
Proof. intros w. exists a, w. reflexivity. Qed.

Lemma returns_bind {A B : Type} (m : M A) (k : A -> M B) :
  returns m -> (forall a, returns (k a)) -> returns (bind m k).
Proof.
  intros Hm Hk w. destruct (Hm w) as (a & w1 & Ha).
  destruct (Hk a w1) as (b & w2 & Hb).
  exists b, w2. unfold bind. rewrite Ha. exact Hb.
Qed.

Lemma bind_return {A B : Type} (m : M A) (k : A -> M B) (w w1 : world) (a : A) :
  m w = (Return a, w1) -> bind m k w = k a w1.
Proof. intros Hm. unfold bind. rewrite Hm. reflexivity. Qed.

Lemma bind_inv {A B : Type} (m : M A) (k : A -> M B) (w w' : world) (b : B) :
  bind m k w = (Return b, w') ->
  exists a w1, m w = (Return a, w1) /\ k a w1 = (Return b, w').
Proof.
  unfold bind. destruct (m w) as [[a | msg | c] w1]; try discriminate.
  intros Hk. exists a, w1. split; [reflexivity | exact Hk].
Qed.


Lemma print_run (line : string) (w : world) :
  print line w = (Return tt, mkWorld (fs w) (Print line :: log w)).
Proof. reflexivity. Qed.

Lemma returns_emit (e : event) : returns (emit e).
Proof. intros w. eexists _, _. reflexivity. Qed.

Lemma returns_print (line : string) : returns (print line).
Proof. apply returns_emit. Qed.

Lemma returns_sleep (ms : Z) : returns (sleep ms).
Proof. apply returns_emit. Qed.

Lemma returns_try_except {A : Type} (body : M A) (handler : string -> M A) :
  no_exit body -> (forall e, returns (handler e)) -> returns (try_except body handler).
Proof.
  intros Hb Hh w. unfold try_except. specialize (Hb w).
  destruct (body w) as [[a | msg | c] w1]; simpl in Hb.
  - exists a, w1. reflexivity.
  - apply Hh.
  - contradiction.
Qed.

Lemma returns_for_each {A S : Type} (l : list A) (body : A -> S -> M S) :
  (forall x s, returns (body x s)) -> forall s, returns (for_each l body s).
Proof.
  intros Hbody. induction l as [| x rest IH]; intros s; simpl.
  - apply returns_ret.
  - apply returns_bind; [apply Hbody | exact IH].
Qed.

Lemma returns_no_exit {A : Type} (m : M A) : returns m -> no_exit m.
Proof. intros Hm w. destruct (Hm w) as (a & w1 & Ha). rewrite Ha. exact I. Qed.

Lemma no_exit_raise {A : Type} (msg : string) : no_exit (@raise A msg).
Proof. intros w. exact I. Qed.

Lemma no_exit_bind {A B : Type} (m : M A) (k : A -> M B) :
  no_exit m -> (forall a, no_exit (k a)) -> no_exit (bind m k).
Proof.
  intros Hm Hk w. unfold bind. specialize (Hm w).
  destruct (m w) as [[a | msg | c] w1]; simpl in *; [apply Hk | exact I | contradiction].
Qed.

Lemma no_exit_try_except {A : Type} (body : M A) (handler : string -> M A) :
  no_exit body -> (forall e, no_exit (handler e)) -> no_exit (try_except body handler).
Proof.
  intros Hb Hh w. unfold try_except. specialize (Hb w).
  destruct (body w) as [[a | msg | c] w1]; simpl in *; [exact I | apply Hh | contradiction].
Qed.

Lemma no_exit_MP4_open (p : m4a_path) : no_exit (MP4_open p).
Proof.
  intros w. unfold MP4_open. destruct (lookup_file w p) as [f |]; [| exact I].
  destruct (content f); exact I.
Qed.

Lemma no_exit_MP4_save (p : m4a_path) (audio : MP4) : no_exit (MP4_save p audio).
Proof.
  intros w. unfold MP4_save. destruct (lookup_file w p) as [f |]; [| exact I].
  destruct (save_error f); exact I.
Qed.

Lemma no_exit_cover_read_bytes (folder_path : string) : no_exit (cover_read_bytes folder_path).
Proof.
  intros w. unfold cover_read_bytes.
  destruct (fs w !! folder_path) as [d |]; [| exact I].
  destruct (cover_jpg d) as [c |]; [| exact I].
  destruct (cover_read c); exact I.
Qed.

Lemma no_exit_cover_unlink (folder_path : string) : no_exit (cover_unlink folder_path).
Proof.
  intros w. unfold cover_unlink.
  destruct (fs w !! folder_path) as [d |]; [| exact I].
  destruct (cover_jpg d) as [c |]; [| exact I].
  destruct (unlink_error c); exact I.
Qed.

Lemma no_exit_requests_get_recording (E : externals) (q : string) :
  no_exit (requests_get_recording E q).
Proof. intros w. unfold requests_get_recording. destruct (musicbrainz E (log w) q); exact I. Qed.

Lemma no_exit_requests_get_cover (E : externals) (r : string) :
  no_exit (requests_get_cover E r).
Proof. intros w. unfold requests_get_cover. destruct (coverartarchive E (log w) r); exact I. Qed.

Lemma no_exit_is_dir (E : externals) (folder_path : string) :
  no_exit (is_dir E folder_path).
Proof.
  intros w. unfold is_dir. destruct (fs w !! folder_path); [exact I |].
  destruct (Path_status E folder_path); exact I.
Qed.

Lemma no_exit_cover_exists (E : externals) (folder_path : string) :
  no_exit (cover_exists E folder_path).
Proof.
  intros w. unfold cover_exists. destruct (fs w !! folder_path); [exact I |].
  destruct (Path_status E folder_path); exact I.
Qed.

Lemma returns_glob_m4a (E : externals) (folder_path : string) :
  returns (glob_m4a E folder_path).
Proof.
  intros w. unfold glob_m4a. destruct (fs w !! folder_path); [eexists _, _; reflexivity |].
  destruct (Path_status E folder_path); eexists _, _; reflexivity.
Qed.

#[export] Hint Resolve returns_ret returns_emit returns_print returns_sleep
  no_exit_is_dir no_exit_cover_exists returns_glob_m4a
  no_exit_raise no_exit_MP4_open no_exit_MP4_save no_exit_cover_read_bytes
  no_exit_cover_unlink no_exit_requests_get_recording no_exit_requests_get_cover : monad.

(** Take a goal [returns m] or [no_exit m] apart along the structure of
    [m]. *)
Ltac mstep :=
  match goal with
  | |- returns (bind _ _) => apply returns_bind; [| intros ?; cbv beta]
  | |- returns (try_except _ _) => apply returns_try_except; [| intros ?; cbv beta]
  | |- returns (for_each _ _ _) => apply returns_for_each; intros ? ?
  | |- no_exit (bind _ _) => apply no_exit_bind; [| intros ?; cbv beta]
  | |- no_exit (try_except _ _) => apply no_exit_try_except; [| intros ?; cbv beta]
  | |- no_exit (for_each _ _ _) => apply returns_no_exit
  | |- returns (if ?b then _ else _) => destruct b
  | |- no_exit (if ?b then _ else _) => destruct b
  | |- returns (match ?x with _ => _ end) => destruct x
  | |- no_exit (match ?x with _ => _ end) => destruct x
  | |- returns _ => solve [auto with monad]
  | |- no_exit _ => solve [auto with monad | apply returns_no_exit; auto with monad]
  end.

Ltac msolve := repeat mstep.

(** ** Which functions of albumArt.py end with a value in every world *)

Section Totality.
Variable E : externals.

Lemma no_exit_first_release_id (body : json_doc) : no_exit (first_release_id body).
Proof. unfold first_release_id. msolve. Qed.

Lemma returns_search_musicbrainz (title artist : option string) :
  returns (search_musicbrainz E title artist).
Proof.
  pose proof no_exit_first_release_id.
  unfold search_musicbrainz. msolve.
Qed.

Lemma returns_get_cover_art (release_id : string) : returns (get_cover_art E release_id).
Proof. unfold get_cover_art. msolve. Qed.

Lemma returns_search_album_art (title artist : option string) :
  returns (search_album_art E title artist).
Proof.
  pose proof returns_search_musicbrainz. pose proof returns_get_cover_art.
  unfold search_album_art. msolve.
Qed.

Lemma no_exit_load_local_cover (folder_path : string) :
  no_exit (load_local_cover E folder_path).
Proof. unfold load_local_cover. msolve. Qed.

Lemma returns_resize_image (image_data : bytes) (max_size : N) :
  returns (resize_image E image_data max_size).
Proof. unfold resize_image, open_image. msolve. Qed.

Lemma no_exit_first_or_none (audio : MP4) (key : string) :
  no_exit (first_or_none audio key).
Proof. unfold first_or_none. msolve. Qed.

Lemma returns_folder_search_text (folder_path : string) (files : list m4a_path) :
  returns (folder_search_text E folder_path files).
Proof.
  pose proof no_exit_first_or_none.
  unfold folder_search_text. msolve.
Qed.

Lemma no_exit_folder_artwork (folder_path : string) (files : list m4a_path) :
  no_exit (folder_artwork E folder_path files).
Proof.
  pose proof no_exit_load_local_cover. pose proof returns_resize_image.
  pose proof returns_folder_search_text. pose proof returns_search_album_art.
  unfold folder_artwork. msolve.
Qed.

Lemma returns_write_shared_cover (image_data : bytes) (p : m4a_path) (counts : nat * nat) :
  returns (write_shared_cover image_data p counts).
Proof. unfold write_shared_cover. msolve. Qed.

Lemma returns_print_results (counts : nat * nat) : returns (print_results counts).
Proof. unfold print_results. msolve. Qed.

Lemma no_exit_add_album_art_to_folder (folder_path : string) :
  no_exit (add_album_art_to_folder E folder_path).
Proof.
  pose proof no_exit_folder_artwork. pose proof returns_write_shared_cover.
  pose proof returns_print_results.
  unfold add_album_art_to_folder. msolve.
Qed.

Lemma no_exit_song_search_text (p : m4a_path) (audio : MP4) :
  no_exit (song_search_text p audio).
Proof.
  pose proof no_exit_first_or_none.
  unfold song_search_text. msolve.
Qed.

Lemma returns_song_artwork (dflt : bytes) (search : option string * option string)
    (counts : nat * nat) :
  returns (song_artwork E dflt search counts).
Proof.
  pose proof returns_search_album_art. pose proof returns_resize_image.
  unfold song_artwork. msolve.
Qed.

Lemma returns_song_failed (p : m4a_path) (counts : nat * nat) (e : string) :
  returns (song_failed p counts e).
Proof. unfold song_failed. msolve. Qed.

Lemma returns_process_song (dflt : bytes) (p : m4a_path) (counts : nat * nat) :
  returns (process_song E dflt p counts).
Proof.
  pose proof no_exit_song_search_text. pose proof returns_song_artwork.
  pose proof returns_song_failed.
  unfold process_song. msolve.
Qed.

Lemma no_exit_add_album_art_per_song (folder_path : string) :
  no_exit (add_album_art_per_song E folder_path).
Proof.
  pose proof returns_process_song. pose proof returns_print_results.
  unfold add_album_art_per_song. msolve.
Qed.

End Totality.

(** ** The argument check of the artwork tool *)

(** The argument check itself: too few arguments end the tool with exit
    status 1. *)
Lemma albumArt_main_usage (E : externals) (argv : list string) (w : world) :
  ~ argv_accepted argv -> exit_status (fst (albumArt_main E argv w)) = 1.
Proof.
  intros Hno. unfold albumArt_main, argv_accepted in *.
  destruct (length argv <? 2)%nat eqn:Hlt2; [reflexivity |].
  apply Nat.ltb_ge in Hlt2.
  case_bool_decide as Hmode.
  - destruct (length argv <? 3)%nat eqn:Hlt3; [reflexivity |].
    apply Nat.ltb_ge in Hlt3. exfalso. apply Hno. split; [lia | intros _; lia].
  - exfalso. apply Hno. split; [lia | intros Hm; contradiction].
Qed.

(** ** What [is_dir] and [glob] answer *)



Lemma is_dir_true (E : externals) (folder_path : string) (d : directory) (w : world) :
  fs w !! folder_path = Some d -> is_dir E folder_path w = (Return true, w).
Proof. intros Hd. unfold is_dir. rewrite Hd. reflexivity. Qed.

Lemma glob_m4a_run (E : externals) (folder_path : string) (d : directory) (w : world) :
  fs w !! folder_path = Some d ->
  glob_m4a E folder_path w = (Return (paths_of folder_path d), w).
Proof. intros Hd. unfold glob_m4a. rewrite Hd. reflexivity. Qed.

Lemma is_dir_inv (E : externals) (folder_path : string) (w w' : world) (r : result bool) :
  is_dir E folder_path w = (r, w') -> w' = w.
Proof.
  unfold is_dir. destruct (fs w !! folder_path); [congruence |].
  destruct (Path_status E folder_path); congruence.
Qed.

Lemma glob_m4a_inv (E : externals) (folder_path : string) (w w' : world)
    (r : result (list m4a_path)) :
  glob_m4a E folder_path w = (r, w') -> w' = w.
Proof.
  unfold glob_m4a. destruct (fs w !! folder_path); [congruence |].
  destruct (Path_status E folder_path); congruence.
Qed.


(** ** Image normalization *)

Lemma count_ones_repeat (n : nat) (rest : bytes) :
  count_ones (repeat Byte.x01 n ++ Byte.x00 :: rest)%list = n /\
  skip_ones (repeat Byte.x01 n ++ Byte.x00 :: rest)%list = Byte.x00 :: rest.
Proof.
  induction n as [| n [IHc IHs]]; simpl; [split; reflexivity |].
  rewrite IHc, IHs. split; reflexivity.
Qed.

Lemma count_ones_repeat_end (n : nat) :
  count_ones (repeat Byte.x01 n) = n /\ skip_ones (repeat Byte.x01 n) = [].
Proof.
  induction n as [| n [IHc IHs]]; simpl; [split; reflexivity |].
  rewrite IHc, IHs. split; reflexivity.
Qed.

Lemma toy_decode_encode (w h : N) : toy_decode_size (toy_encode w h) = Some (w, h).
Proof.
  unfold toy_decode_size, toy_encode.
  destruct (count_ones_repeat (N.to_nat w) (repeat Byte.x01 (N.to_nat h))) as [Hc Hs].
  destruct (count_ones_repeat_end (N.to_nat h)) as [Hc' Hs'].
  simpl. rewrite Hs. simpl. rewrite Hs', Hc, Hc', !N2Nat.id. reflexivity.
Qed.

Lemma toy_codec_laws (mb : list event -> string -> http json_doc)
    (ca : list event -> string -> http bytes) : codec_laws (toy mb ca).
Proof.
  split; simpl.
  - reflexivity.
  - intros img box. unfold toy_thumbnail. destruct (height img <=? width img)%N; reflexivity.
  - intros img m. unfold toy_thumbnail.
    destruct (height img <=? width img)%N; simpl; split; apply N.le_min_l.
  - intros img q. discriminate.
  - intros img q Hmode. unfold toy_open, toy_save. rewrite toy_decode_encode.
    eexists. split; [reflexivity |]. simpl. repeat split.
Qed.

Lemma resize_image_decoded (E : externals) (data : bytes) (max_size : N)
    (img : image) (w : world) :
  Image_open E data = inr img ->
  resize_image E data max_size w
  = (Return (Some (Image_save_JPEG E (normalized E img max_size) 95)), w).
Proof.
  intros Hopen. unfold resize_image, try_except, bind, open_image. rewrite Hopen.
  reflexivity.
Qed.

Lemma resize_image_undecoded (E : externals) (data : bytes) (max_size : N)
    (msg : string) (w : world) :
  Image_open E data = inl msg ->
  resize_image E data max_size w
  = (Return None, mkWorld (fs w) (Print ("  Failed to process image: " +:+ msg) :: log w)).
Proof.
  intros Hopen. unfold resize_image, try_except, bind, open_image. rewrite Hopen.
  reflexivity.
Qed.

Lemma normalized_fits (E : externals) (img : image) (max_size : N) :
  codec_laws E ->
  let out := normalized E img max_size in
  mode out = "RGB" /\ (width out <= max_size)%N /\ (height out <= max_size)%N.
Proof.
  intros L. unfold normalized.
  set (rgb := if negb (String.eqb (mode img) "RGB") then Image_convert E img "RGB" else img).
  assert (Hrgb : mode rgb = "RGB").
  { subst rgb. destruct (String.eqb (mode img) "RGB") eqn:Hm; simpl.
    - apply String.eqb_eq. exact Hm.
    - apply (convert_mode E L). }
  cbv zeta.
  destruct ((max_size <? width rgb)%N || (max_size <? height rgb)%N) eqn:Hbig.
  - rewrite (thumbnail_mode E L). split; [exact Hrgb |]. apply (thumbnail_fits E L).
  - apply orb_false_iff in Hbig as [Hw Hh].
    apply N.ltb_ge in Hw, Hh. auto.
Qed.

Lemma normalized_fixpoint (E : externals) (img : image) (max_size : N) :
  mode img = "RGB" -> (width img <= max_size)%N -> (height img <= max_size)%N ->
  normalized E img max_size = img.
Proof.
  intros Hmode Hw Hh. unfold normalized. rewrite Hmode. simpl.
  apply N.ltb_ge in Hw, Hh. rewrite Hw, Hh. reflexivity.
Qed.

(** C9. Normalization is idempotent on its own output.  Whenever
    [resize_image] produces bytes, they decode to an RGB image within the
    size limit; normalizing them again converts nothing and scales
    nothing, it only encodes that same decoded image as JPEG again, so the
    result has the same dimensions, the same color model and the same
    format. *)
Theorem resize_image_idempotent (E : externals) (data out : bytes) (max_size : N)
    (w w1 : world) :
  codec_laws E ->
  resize_image E data max_size w = (Return (Some out), w1) ->
  exists img,
    Image_open E out = inr img /\
    mode img = "RGB" /\ (width img <= max_size)%N /\ (height img <= max_size)%N /\
    (forall w2,
       resize_image E out max_size w2 = (Return (Some (Image_save_JPEG E img 95)), w2)) /\
    exists img',
      Image_open E (Image_save_JPEG E img 95) = inr img' /\
      mode img' = mode img /\ width img' = width img /\ height img' = height img.
Proof.
  intros L Hrun.
  destruct (Image_open E data) as [msg | img0] eqn:Hopen.
  - pose proof (resize_image_undecoded E data max_size msg w Hopen) as Hnone.
    rewrite Hrun in Hnone. discriminate.
  - rewrite (resize_image_decoded E data max_size img0 w Hopen) in Hrun.
    injection Hrun as Hout _.
    destruct (normalized_fits E img0 max_size L) as (Hmode & Hw & Hh).
    destruct (open_save E L _ 95%N Hmode) as (img & Himg & Hm & Hwi & Hhi).
    rewrite Hout in Himg.
    exists img.
    split; [exact Himg |]. split; [exact Hm |].
    split; [rewrite Hwi; exact Hw |]. split; [rewrite Hhi; exact Hh |].
    split.
    + intros w2. rewrite (resize_image_decoded E out max_size img w2 Himg).
      rewrite normalized_fixpoint; [reflexivity | exact Hm | lia | lia].
    + destruct (open_save E L img 95%N Hm) as (img' & Himg' & Hm' & Hwi' & Hhi').
      exists img'. rewrite Hm. auto.
Qed.

Lemma resize_image_idempotent_witness :
  exists img,
    Image_open online (toy_encode 512 256) = inr img /\
    mode img = "RGB" /\ (width img <= 512)%N /\ (height img <= 512)%N /\
    (forall w2,
       resize_image online (toy_encode 512 256) 512 w2
       = (Return (Some (Image_save_JPEG online img 95)), w2)) /\
    exists img',
      Image_open online (Image_save_JPEG online img 95) = inr img' /\
      mode img' = mode img /\ width img' = width img /\ height img' = height img.
Proof.
  apply (resize_image_idempotent online (toy_encode 600 300) (toy_encode 512 256) 512
           no_folders no_folders).
  - apply toy_codec_laws.
  - vm_compute. reflexivity.
Defined.

(** ** What a computation leaves unchanged *)

Section Keeps.
Variable R : world -> world -> Prop.
Hypothesis R_refl : forall w, R w w.
Hypothesis R_trans : forall w1 w2 w3, R w1 w2 -> R w2 w3 -> R w1 w3.

Lemma keeps_ret {A : Type} (a : A) : keeps R (ret a).
Proof. intros w. apply R_refl. Qed.

Lemma keeps_raise {A : Type} (msg : string) : keeps R (@raise A msg).
Proof. intros w. apply R_refl. Qed.

Lemma keeps_bind {A B : Type} (m : M A) (k : A -> M B) :
  keeps R m -> (forall a, keeps R (k a)) -> keeps R (bind m k).
Proof.
  intros Hm Hk w. unfold bind. specialize (Hm w).
  destruct (m w) as [[a | msg | c] w1]; simpl in *; try exact Hm.
  apply R_trans with w1; [exact Hm | apply Hk].
Qed.

Lemma keeps_try_except {A : Type} (body : M A) (handler : string -> M A) :
  keeps R body -> (forall e, keeps R (handler e)) -> keeps R (try_except body handler).
Proof.
  intros Hb Hh w. unfold try_except. specialize (Hb w).
  destruct (body w) as [[a | msg | c] w1]; simpl in *; try exact Hb.
  apply R_trans with w1; [exact Hb | apply Hh].
Qed.

Lemma keeps_for_each {A S : Type} (l : list A) (body : A -> S -> M S) :
  (forall x s, keeps R (body x s)) -> forall s, keeps R (for_each l body s).
Proof.
  intros Hbody. induction l as [| x rest IH]; intros s; simpl.
  - apply keeps_ret.
  - apply keeps_bind; [apply Hbody | exact IH].
Qed.

End Keeps.

Lemma same_requests_refl (w : world) : same_requests w w.
Proof. reflexivity. Qed.

Lemma same_requests_trans (w1 w2 w3 : world) :
  same_requests w1 w2 -> same_requests w2 w3 -> same_requests w1 w3.
Proof. unfold same_requests. intros H12 H23. rewrite H23. exact H12. Qed.

Lemma keeps_requests_print (line : string) : keeps same_requests (print line).
Proof. intros w. reflexivity. Qed.

Lemma keeps_requests_MP4_open (p : m4a_path) : keeps same_requests (MP4_open p).
Proof.
  intros w. unfold MP4_open. destruct (lookup_file w p) as [f |]; [| reflexivity].
  destruct (content f); reflexivity.
Qed.

Lemma keeps_requests_MP4_save (p : m4a_path) (audio : MP4) :
  keeps same_requests (MP4_save p audio).
Proof.
  intros w. unfold MP4_save, store_file. destruct (lookup_file w p) as [f |]; [| reflexivity].
  destruct (save_error f); [reflexivity |].
  simpl. destruct (fs w !! parent p); reflexivity.
Qed.

Lemma keeps_requests_cover_unlink (folder_path : string) :
  keeps same_requests (cover_unlink folder_path).
Proof.
  intros w. unfold cover_unlink.
  destruct (fs w !! folder_path) as [d |]; [| reflexivity].
  destruct (cover_jpg d) as [c |]; [| reflexivity].
  destruct (unlink_error c); reflexivity.
Qed.

Lemma same_fs_refl (w : world) : same_fs w w.
Proof. reflexivity. Qed.

Lemma same_fs_trans (w1 w2 w3 : world) : same_fs w1 w2 -> same_fs w2 w3 -> same_fs w1 w3.
Proof. unfold same_fs. intros H12 H23. rewrite H23. exact H12. Qed.

Lemma keeps_fs_emit (e : event) : keeps same_fs (emit e).
Proof. intros w. reflexivity. Qed.

Lemma keeps_fs_print (line : string) : keeps same_fs (print line).
Proof. apply keeps_fs_emit. Qed.

Lemma keeps_fs_requests_get_recording (E : externals) (q : string) :
  keeps same_fs (requests_get_recording E q).
Proof.
  intros w. unfold requests_get_recording. destruct (musicbrainz E (log w) q); reflexivity.
Qed.

Lemma keeps_fs_requests_get_cover (E : externals) (r : string) :
  keeps same_fs (requests_get_cover E r).
Proof.
  intros w. unfold requests_get_cover. destruct (coverartarchive E (log w) r); reflexivity.
Qed.

#[export] Hint Resolve same_requests_refl same_requests_trans keeps_requests_print
  keeps_requests_MP4_open keeps_requests_MP4_save keeps_requests_cover_unlink
  same_fs_refl same_fs_trans keeps_fs_emit keeps_fs_print
  keeps_fs_requests_get_recording keeps_fs_requests_get_cover : monad.

(** Take a goal [keeps R m] apart along the structure of [m], for a
    reflexive and transitive [R]. *)
Ltac kstep_for R R_refl R_trans :=
  match goal with
  | |- keeps R _ => solve [auto with monad]
  | |- keeps R (bind _ _) => apply (keeps_bind R R_trans); [| intros ?; cbv beta]
  | |- keeps R (try_except _ _) => apply (keeps_try_except R R_trans); [| intros ?; cbv beta]
  | |- keeps R (for_each _ _ _) => apply (keeps_for_each R R_refl R_trans); intros ? ?
  | |- keeps R (ret _) => apply (keeps_ret R R_refl)
  | |- keeps R (raise _) => apply (keeps_raise R R_refl)
  | |- keeps R (if ?b then _ else _) => destruct b
  | |- keeps R (match ?x with _ => _ end) => destruct x
  end.

Ltac kstep := kstep_for same_requests same_requests_refl same_requests_trans.
Ltac kfs := kstep_for same_fs same_fs_refl same_fs_trans.

Lemma keeps_requests_write_loop (image_data : bytes) (files : list m4a_path)
    (counts : nat * nat) :
  keeps same_requests (for_each files (write_shared_cover image_data) counts).
Proof. kstep. unfold write_shared_cover. repeat kstep. Qed.

Lemma keeps_requests_print_results (counts : nat * nat) :
  keeps same_requests (print_results counts).
Proof. unfold print_results. repeat kstep. Qed.

(** ** Shared mode with a local cover *)

Lemma load_local_cover_found (E : externals) (folder_path : string) (d : directory)
    (c : cover_file) (b : bytes) (w : world) :
  fs w !! folder_path = Some d -> cover_jpg d = Some c -> cover_read c = inr b ->
  load_local_cover E folder_path w = (Return (Some b), w).
Proof.
  intros Hd Hc Hb.
  unfold load_local_cover, bind, cover_exists, try_except, cover_read_bytes, ret.
  rewrite Hd, Hc. simpl. rewrite Hd, Hc, Hb. reflexivity.
Qed.

(** C1, as the code has it. When the folder's [cover.jpg] is read without
    error and is not empty, shared-mode resolution contacts neither
    service and changes nothing on disk; the artwork is the normalized
    form of the file's bytes, or the placeholder when those bytes do not
    normalize, and the whole run of [add_album_art_to_folder] makes no
    request either. *)
Theorem local_cover_no_remote_call (E : externals) (folder_path : string)
    (d : directory) (c : cover_file) (b : bytes) (w : world) :
  fs w !! folder_path = Some d -> cover_jpg d = Some c -> cover_read c = inr b ->
  b <> [] ->
  (forall files, exists w',
     folder_artwork E folder_path files w
     = (Return (match fst (resize_image E b 512 w) with
                | Return (Some (x :: rest)) => x :: rest
                | _ => create_default_artwork E 512
                end, true), w') /\
     same_requests w w' /\ same_fs w w') /\
  same_requests w (snd (add_album_art_to_folder E folder_path w)).
Proof.
  intros Hd Hc Hb Hne.
  assert (Hart : forall files, exists w',
     folder_artwork E folder_path files w
     = (Return (match fst (resize_image E b 512 w) with
                | Return (Some (x :: rest)) => x :: rest
                | _ => create_default_artwork E 512
                end, true), w') /\
     same_requests w w' /\ same_fs w w').
  { intros files. destruct b as [| x0 b0]; [contradiction |].
    unfold folder_artwork.
    rewrite (bind_return _ _ _ _ _ (print_run _ _)).
    erewrite bind_return by (apply (load_local_cover_found E folder_path d c); eassumption).
    cbv beta. change (truthy_bytes (Some (x0 :: b0))) with true. cbv iota.
    destruct (Image_open E (x0 :: b0)) as [msg | img] eqn:Hopen.
    - rewrite (resize_image_undecoded E _ 512 msg w Hopen). simpl fst.
      erewrite bind_return.
      2:{ rewrite (bind_return _ _ _ _ _ (print_run _ _)).
          rewrite (bind_return _ _ _ _ _ (resize_image_undecoded E _ 512 msg _ Hopen)).
          reflexivity. }
      eexists. split; [reflexivity |]. split; reflexivity.
    - rewrite (resize_image_decoded E _ 512 img w Hopen). simpl fst.
      erewrite bind_return.
      2:{ rewrite (bind_return _ _ _ _ _ (print_run _ _)).
          rewrite (bind_return _ _ _ _ _ (resize_image_decoded E _ 512 img _ Hopen)).
          reflexivity. }
      destruct (Image_save_JPEG E (normalized E img 512) 95) as [| y out]; simpl;
        (eexists; split; [reflexivity |]; split; reflexivity). }
  split; [exact Hart |].
  unfold add_album_art_to_folder.
  rewrite (bind_return _ _ _ _ _ (is_dir_true _ _ _ _ Hd)).
  cbv beta. change (negb true) with false. cbv iota.
  rewrite (bind_return _ _ _ _ _ (glob_m4a_run _ _ _ _ Hd)).
  destruct (paths_of folder_path d) as [| p files] eqn:Hfiles; [reflexivity |].
  destruct (Hart (p :: files)) as (w1 & Hrun & Hreq & _).
  rewrite (bind_return _ _ _ _ _ Hrun).
  apply same_requests_trans with w1; [exact Hreq |].
  match goal with
  | |- same_requests w1 (snd (?m w1)) => cut (keeps same_requests m); [intros Hk; apply Hk |]
  end.
  pose proof keeps_requests_write_loop. pose proof keeps_requests_print_results.
  repeat kstep.
Qed.

Lemma local_cover_no_remote_call_witness :
  same_requests corrupt_cover (snd (add_album_art_to_folder online "Album" corrupt_cover)).
Proof.
  eapply (local_cover_no_remote_call online "Album" _ _ [Byte.x00; Byte.x2a] corrupt_cover);
    [reflexivity | reflexivity | reflexivity | discriminate].
Defined.

(** C1 as stated fails: a folder can contain a [cover.jpg] and shared-mode
    resolution still goes to the recording-search endpoint, namely when
    the file cannot be read and when it is empty. *)
Lemma cover_present_but_remote_call :
  (cover_jpg <$> album_dir unreadable_cover)
    = Some (Some (mkCover (inl "[Errno 13] Permission denied") None)) /\
  requests (log (snd (add_album_art_to_folder offline "Album" unreadable_cover)))
    = [GetRecording (recording_query "Abbey Road" (Some "Beatles"))] /\
  (cover_jpg <$> album_dir empty_cover) = Some (Some (mkCover (inr []) None)) /\
  requests (log (snd (add_album_art_to_folder offline "Album" empty_cover)))
    = [GetRecording (recording_query "Abbey Road" (Some "Beatles"))].
Proof. vm_compute. repeat split. Qed.

Lemma returns_run {A : Type} (m : M A) (w : world) :
  returns m -> exists a w', m w = (Return a, w').
Proof. intros Hm. apply Hm. Qed.

(** ** The search text of shared mode *)

Lemma MP4_open_run (p : m4a_path) (f : m4a_file) (audio : MP4) (w : world) :
  lookup_file w p = Some f -> content f = inr audio ->
  MP4_open p w = (Return audio, w).
Proof. intros Hf Hc. unfold MP4_open. rewrite Hf, Hc. reflexivity. Qed.

Lemma first_or_none_run (audio : MP4) (key : string) (w : world) :
  text_tags audio !! key <> Some [] ->
  first_or_none audio key w = (Return (tag audio key), w).
Proof.
  intros Hne. unfold first_or_none, tag.
  destruct (text_tags audio !! key) as [[| v rest] |]; [contradiction | reflexivity | reflexivity].
Qed.






(** ** Per-file mode: what counts as a failure *)

Lemma keeps_fs_search_album_art (E : externals) (title artist : option string) :
  keeps same_fs (search_album_art E title artist).
Proof.
  unfold search_album_art, search_musicbrainz, get_cover_art, first_release_id.
  repeat kfs.
Qed.

Lemma keeps_fs_resize_image (E : externals) (data : bytes) (max_size : N) :
  keeps same_fs (resize_image E data max_size).
Proof. unfold resize_image, open_image. repeat kfs. Qed.

Lemma lookup_file_same_fs (w w' : world) (p : m4a_path) :
  same_fs w w' -> lookup_file w' p = lookup_file w p.
Proof. unfold same_fs, lookup_file. intros ->. reflexivity. Qed.

Lemma MP4_open_raise (p : m4a_path) (f : m4a_file) (msg : string) (w : world) :
  lookup_file w p = Some f -> content f = inl msg -> MP4_open p w = (Raise msg, w).
Proof. intros Hf Hc. unfold MP4_open. rewrite Hf, Hc. reflexivity. Qed.

Lemma MP4_save_run (p : m4a_path) (f : m4a_file) (audio : MP4) (w : world) :
  lookup_file w p = Some f -> save_error f = None ->
  MP4_save p audio w
  = (Return tt, store_file w p (mkFile (file_name f) (file_stem f) (inr audio) None)).
Proof. intros Hf Hs. unfold MP4_save. rewrite Hf, Hs. reflexivity. Qed.

Lemma MP4_save_raise (p : m4a_path) (f : m4a_file) (audio : MP4) (msg : string) (w : world) :
  lookup_file w p = Some f -> save_error f = Some msg ->
  MP4_save p audio w = (Raise msg, w).
Proof. intros Hf Hs. unfold MP4_save. rewrite Hf, Hs. reflexivity. Qed.

Lemma lookup_file_store_file (w : world) (p : m4a_path) (f f' : m4a_file) :
  lookup_file w p = Some f -> lookup_file (store_file w p f') p = Some f'.
Proof.
  unfold lookup_file, store_file. intros Hf.
  destruct (fs w !! parent p) as [d |] eqn:Hd; [| discriminate]. simpl in *.
  rewrite lookup_insert_eq. simpl.
  apply list_lookup_insert_eq. apply lookup_lt_Some with f. exact Hf.
Qed.


(** What [song_artwork] does to the counters: one of them goes up by one,
    and nothing on disk changes. *)
Lemma song_artwork_run (E : externals) (dflt : bytes) (search : option string * option string)
    (counts : nat * nat) (w : world) :
  exists art counts' w',
    song_artwork E dflt search counts w = (Return (art, counts'), w') /\
    same_fs w w' /\
    (counts' = (S (fst counts), snd counts) \/ counts' = (fst counts, S (snd counts))).
Proof.
  assert (Hkeeps : keeps same_fs (song_artwork E dflt search counts)).
  { pose proof (keeps_fs_search_album_art E). pose proof (keeps_fs_resize_image E).
    unfold song_artwork. repeat kfs. }
  specialize (Hkeeps w).
  destruct (returns_song_artwork E dflt search counts w) as ([art counts'] & w' & Hrun).
  exists art, counts', w'. split; [exact Hrun |]. split.
  - rewrite Hrun in Hkeeps. exact Hkeeps.
  - clear Hkeeps. revert Hrun. unfold song_artwork.
    destruct (returns_search_album_art E (fst search) (snd search) w) as (found & w1 & Hfound).
    rewrite (bind_return _ _ _ _ _ Hfound).
    match goal with
    | |- context [bind ?m ?k w1] =>
        assert (Hsized : exists sized w2, m w1 = (Return sized, w2))
    end.
    { apply returns_run. pose proof (returns_resize_image E). msolve. }
    destruct Hsized as (sized & w2 & Hsized).
    rewrite (bind_return _ _ _ _ _ Hsized).
    destruct (truthy_bytes sized); simpl; intros [= _ <- _]; auto.
Qed.

(** When the lookup finds nothing, the placeholder is used and the
    failure counter goes up. *)
Lemma song_artwork_not_found (E : externals) (dflt : bytes)
    (search : option string * option string) (counts : nat * nat) (w : world) :
  (forall w1, fst (search_album_art E (fst search) (snd search) w1) = Return None) ->
  exists w',
    song_artwork E dflt search counts w
    = (Return (dflt, (fst counts, S (snd counts))), w') /\ same_fs w w'.
Proof.
  intros Hfail. unfold song_artwork.
  pose proof (Hfail w) as Hnone.
  pose proof (keeps_fs_search_album_art E (fst search) (snd search) w) as Hfs.
  destruct (search_album_art E (fst search) (snd search) w) as [r w1] eqn:Hrun.
  simpl in Hnone, Hfs. subst r. rewrite (bind_return _ _ _ _ _ Hrun).
  simpl. eexists. split; [reflexivity | exact Hfs].
Qed.

Lemma sleep_run (ms : Z) (w : world) :
  sleep ms w = (Return tt, mkWorld (fs w) (Sleep ms :: log w)).
Proof. reflexivity. Qed.

Lemma try_except_return {A : Type} (body : M A) (handler : string -> M A)
    (w w' : world) (a : A) :
  body w = (Return a, w') -> try_except body handler w = (Return a, w').
Proof. intros Hb. unfold try_except. rewrite Hb. reflexivity. Qed.

Lemma try_except_raise {A : Type} (body : M A) (handler : string -> M A)
    (w w' : world) (msg : string) :
  body w = (Raise msg, w') -> try_except body handler w = handler msg w'.
Proof. intros Hb. unfold try_except. rewrite Hb. reflexivity. Qed.

Lemma bind_raise {A B : Type} (m : M A) (k : A -> M B) (w w1 : world) (msg : string) :
  m w = (Raise msg, w1) -> bind m k w = (Raise msg, w1).
Proof. intros Hm. unfold bind. rewrite Hm. reflexivity. Qed.

(** C5, as the code has it. In per-file mode a failed lookup still puts
    the placeholder into the file's cover tag and reports the file as
    saved, but it is counted: the failure count goes up by one and the
    success count stays.  A file whose tags cannot be read, and a file
    whose save raises, add to the failure count too. *)
Theorem failed_lookup_counts_as_failure (E : externals) (dflt : bytes) (p : m4a_path)
    (f : m4a_file) (counts : nat * nat) (w : world) :
  lookup_file w p = Some f ->
  (forall msg, content f = inl msg ->
     process_song E dflt p counts w
     = (Return (fst counts, S (snd counts)),
        mkWorld (fs w) (Print ("✗ " +:+ name p +:+ ": " +:+ msg) :: log w))) /\
  (forall audio search,
     content f = inr audio ->
     song_search_text p audio w = (Return search, w) ->
     (forall w1, fst (search_album_art E (fst search) (snd search) w1) = Return None) ->
     save_error f = None ->
     exists w',
       process_song E dflt p counts w = (Return (fst counts, S (snd counts)), w') /\
       lookup_file w' p
       = Some (mkFile (file_name f) (file_stem f) (inr (set_covr audio dflt)) None) /\
       exists earlier, log w' = Sleep 1100 :: Print "✓ Saved" :: earlier) /\
  (forall audio search msg,
     content f = inr audio ->
     song_search_text p audio w = (Return search, w) ->
     save_error f = Some msg ->
     exists succeeded failed w',
       process_song E dflt p counts w = (Return (succeeded, failed), w') /\
       (snd counts < failed)%nat /\ same_fs w w').
Proof.
  intros Hf. split; [| split].
  - intros msg Hc. unfold process_song.
    erewrite try_except_raise by (apply bind_raise, (MP4_open_raise p f msg w Hf Hc)).
    reflexivity.
  - intros audio search Hc Hsearch Hfail Hsave. unfold process_song.
    set (w1 := mkWorld (fs w)
                 (Print ("Searching for: " +:+ fmt (fst search)
                         +:+ (if truthy_str (snd search)
                              then " by " +:+ fmt (snd search) else EmptyString))
                  :: Print (nl +:+ name p) :: log w)).
    destruct (song_artwork_not_found E dflt search counts w1 Hfail) as (w2 & Hart & Hfs).
    assert (Hf2 : lookup_file w2 p = Some f).
    { rewrite (lookup_file_same_fs w1 w2 p Hfs). exact Hf. }
    eexists. split; [| split].
    + apply try_except_return.
      rewrite (bind_return _ _ _ _ _ (MP4_open_run p f audio w Hf Hc)).
      rewrite (bind_return _ _ _ _ _ Hsearch).
      rewrite !(bind_return _ _ _ _ _ (print_run _ _)).
      fold w1. rewrite (bind_return _ _ _ _ _ Hart).
      apply try_except_return.
      rewrite (bind_return _ _ _ _ _ (MP4_save_run p f _ w2 Hf2 Hsave)).
      rewrite (bind_return _ _ _ _ _ (print_run _ _)).
      rewrite (bind_return _ _ _ _ _ (sleep_run _ _)).
      reflexivity.
    + simpl. apply (lookup_file_store_file w2 p f). exact Hf2.
    + simpl. eexists. reflexivity.
  - intros audio search msg Hc Hsearch Hsave. unfold process_song.
    set (w1 := mkWorld (fs w)
                 (Print ("Searching for: " +:+ fmt (fst search)
                         +:+ (if truthy_str (snd search)
                              then " by " +:+ fmt (snd search) else EmptyString))
                  :: Print (nl +:+ name p) :: log w)).
    destruct (song_artwork_run E dflt search counts w1)
      as (art & counts' & w2 & Hart & Hfs & Hcounts).
    assert (Hf2 : lookup_file w2 p = Some f).
    { rewrite (lookup_file_same_fs w1 w2 p Hfs). exact Hf. }
    exists (fst counts'), (S (snd counts')). eexists. split; [| split].
    + apply try_except_return.
      rewrite (bind_return _ _ _ _ _ (MP4_open_run p f audio w Hf Hc)).
      rewrite (bind_return _ _ _ _ _ Hsearch).
      rewrite !(bind_return _ _ _ _ _ (print_run _ _)).
      fold w1. rewrite (bind_return _ _ _ _ _ Hart).
      erewrite try_except_raise
        by (apply bind_raise, (MP4_save_raise p f _ msg w2 Hf2 Hsave)).
      reflexivity.
    + destruct Hcounts as [-> | ->]; simpl; lia.
    + exact Hfs.
Qed.

Lemma offline_lookup_fails (title artist : option string) (w : world) :
  fst (search_album_art offline title artist w) = Return None.
Proof.
  unfold search_album_art, search_musicbrainz.
  destruct (truthy_str title), (truthy_str artist); reflexivity.
Qed.

Lemma failed_lookup_counts_as_failure_witness :
  exists w',
    process_song offline (create_default_artwork offline 512)
      (mkPath "Album" 0 "song.m4a" "song") (0, 0)%nat one_song
    = (Return (0, 1)%nat, w') /\
    lookup_file w' (mkPath "Album" 0 "song.m4a" "song")
    = Some (mkFile "song.m4a" "song"
              (inr (set_covr yesterday (create_default_artwork offline 512))) None) /\
    exists earlier, log w' = Sleep 1100 :: Print "✓ Saved" :: earlier.
Proof.
  exact (proj1 (proj2 (failed_lookup_counts_as_failure offline
                         (create_default_artwork offline 512)
                         (mkPath "Album" 0 "song.m4a" "song")
                         (mkFile "song.m4a" "song" (inr yesterday) None)
                         (0, 0)%nat one_song eq_refl))
           yesterday (Some "Yesterday", Some "Beatles") eq_refl eq_refl
           (offline_lookup_fails (Some "Yesterday") (Some "Beatles")) eq_refl).
Defined.

(** C5 as stated fails: the only file of the folder is read, given the
    placeholder and saved without any exception, and the run still ends
    with one failure and no success. *)
Lemma saved_file_counted_as_failed :
  fst (add_album_art_per_song offline "Album" one_song) = Return (0, 1)%nat /\
  rev (log (snd (add_album_art_per_song offline "Album" one_song)))
  = [Print (nl +:+ "song.m4a");
     Print "Searching for: Yesterday by Beatles";
     Print "  Searching MusicBrainz...";
     GetRecording (recording_query "Yesterday" (Some "Beatles"));
     Print "  MusicBrainz error: Connection refused";
     Print "  No recording found";
     Print "⚠ Using default artwork";
     Print "✓ Saved";
     Sleep 1100;
     Print (nl +:+ "--- Results ---");
     Print "Succeeded: 0";
     Print "Failed: 1"] /\
  (covr <$> album_file_tags (snd (add_album_art_per_song offline "Album" one_song)) 0)
  = Some (Some [mkMP4Cover (create_default_artwork offline 512) FORMAT_JPEG]).
Proof. vm_compute. repeat split. Qed.

(** ** Per-file mode: the delay between requests *)

(** C6 fails on the code. Two songs, the first on a read-only file: its
    lookup goes out, its save raises, and the lookup of the second song
    follows with no delay in between; the only delay of the run comes after
    the second song. *)
Theorem delay_skipped_when_save_raises :
  fst (add_album_art_per_song online "Album" two_songs) = Return (2, 1)%nat /\
  rev (pacing (log (snd (add_album_art_per_song online "Album" two_songs))))
  = [GetRecording (recording_query "a" (Some "b"));
     GetCoverArt "rel-1";
     GetRecording (recording_query "Yesterday" (Some "Beatles"));
     GetCoverArt "rel-1";
     Sleep 1100].
Proof. vm_compute. split; reflexivity. Qed.


(** ** Shared mode: removing the local cover *)

(** C2 fails on the code. The folder's [cover.jpg] holds bytes that do
    not decode: the placeholder is what gets written into the song, and
    [cover.jpg] is deleted all the same. *)
Theorem undecodable_cover_deleted :
  fst (resize_image offline [Byte.x00; Byte.x2a] 512 corrupt_cover) = Return None /\
  fst (add_album_art_to_folder offline "Album" corrupt_cover) = Return (1, 0)%nat /\
  rev (log (snd (add_album_art_to_folder offline "Album" corrupt_cover)))
  = [Print "Looking for cover.jpg...";
     Print "Found cover.jpg, using local artwork";
     Print "  Failed to process image: cannot identify image file";
     Print "Using default artwork";
     Print "✓ song.m4a";
     Print (nl +:+ "✓ Deleted cover.jpg (all files processed successfully)");
     Print (nl +:+ "--- Results ---");
     Print "Succeeded: 1";
     Print "Failed: 0"] /\
  (covr <$> album_file_tags (snd (add_album_art_to_folder offline "Album" corrupt_cover)) 0)
  = Some (Some [mkMP4Cover (create_default_artwork offline 512) FORMAT_JPEG]) /\
  (cover_jpg <$> album_dir (snd (add_album_art_to_folder offline "Album" corrupt_cover)))
  = Some None.
Proof. vm_compute. repeat split. Qed.

(** ** The album tag editor *)

Lemma store_file_id (w : world) (p : m4a_path) (f : m4a_file) :
  lookup_file w p = Some f -> fs (store_file w p f) = fs w.
Proof.
  unfold lookup_file, store_file. intros Hf.
  destruct (fs w !! parent p) as [[files cov] |] eqn:Hd; [| reflexivity]. simpl in *.
  rewrite (list_insert_id files (index p) f Hf). apply insert_id. exact Hd.
Qed.

(** Lines 16-22 on the tags in memory. *)
Lemma album_tag_edit (album_name : option string) (audio : MP4) :
  let audio1 :=
    if bool_decide (is_Some (text_tags audio !! key_alb))
    then mkMP4 (delete key_alb (text_tags audio)) (covr audio) else audio in
  (if truthy_str album_name
   then mkMP4 (<[key_alb := [fmt album_name]]> (text_tags audio1)) (covr audio1)
   else audio1)
  = mkMP4 (if truthy_str album_name
           then <[key_alb := [fmt album_name]]> (delete key_alb (text_tags audio))
           else delete key_alb (text_tags audio))
          (covr audio).
Proof.
  intros audio1.
  assert (Hcleared : audio1 = mkMP4 (delete key_alb (text_tags audio)) (covr audio)).
  { subst audio1. case_bool_decide as Hin; [reflexivity |].
    rewrite delete_id; [destruct audio; reflexivity |].
    destruct (text_tags audio !! key_alb) eqn:Hl; [| reflexivity].
    exfalso. apply Hin. eauto. }
  rewrite Hcleared. destruct (truthy_str album_name); reflexivity.
Qed.

Lemma update_one_run (album_name : option string) (p : m4a_path) (f : m4a_file) (w : world) :
  lookup_file w p = Some f ->
  exists w',
    update_one album_name p tt w = (Return tt, w') /\
    fs w' = fs (store_file w p (retagged album_name f)).
Proof.
  intros Hf. unfold update_one, retagged.
  destruct (content f) as [msg | audio] eqn:Hc.
  - erewrite try_except_raise by (apply bind_raise, (MP4_open_raise p f msg w Hf Hc)).
    eexists. split; [reflexivity |]. simpl. symmetry. apply store_file_id. exact Hf.
  - destruct (save_error f) as [msg |] eqn:Hs.
    + erewrite try_except_raise.
      2:{ rewrite (bind_return _ _ _ _ _ (MP4_open_run p f audio w Hf Hc)).
          cbv zeta. apply bind_raise, (MP4_save_raise p f _ msg w Hf Hs). }
      eexists. split; [reflexivity |]. simpl. symmetry. apply store_file_id. exact Hf.
    + erewrite try_except_return.
      2:{ rewrite (bind_return _ _ _ _ _ (MP4_open_run p f audio w Hf Hc)).
          cbv zeta. rewrite (bind_return _ _ _ _ _ (MP4_save_run p f _ w Hf Hs)).
          apply print_run. }
      eexists. split; [reflexivity |]. simpl fs.
      rewrite (album_tag_edit album_name audio). reflexivity.
Qed.

(** The loop over the matched files, started after the files [pre] have
    been handled. *)
Lemma update_loop (album_name : option string) (folder_path : string)
    (cov : option cover_file) (suf pre : list m4a_file) (w : world) :
  fs w !! folder_path = Some (mkDir (pre ++ suf) cov) ->
  exists w',
    for_each
      (imap (fun i f => mkPath folder_path (length pre + i) (file_name f) (file_stem f)) suf)
      (update_one album_name) tt w
    = (Return tt, w') /\
    fs w' = <[folder_path := mkDir (pre ++ (retagged album_name <$> suf)) cov]> (fs w).
Proof.
  revert pre w. induction suf as [| f suf IH]; intros pre w Hd.
  - exists w. split; [reflexivity |]. simpl. symmetry. apply insert_id. exact Hd.
  - rewrite imap_cons. simpl for_each.
    set (p := mkPath folder_path (length pre + 0) (file_name f) (file_stem f)).
    assert (Hf : lookup_file w p = Some f).
    { unfold lookup_file. simpl. rewrite Hd. simpl.
      rewrite Nat.add_0_r. apply list_lookup_middle. reflexivity. }
    destruct (update_one_run album_name p f w Hf) as (w1 & Hrun & Hfs).
    rewrite (bind_return _ _ _ _ _ Hrun).
    assert (Hd1 : fs w1 = <[folder_path :=
                              mkDir ((pre ++ [retagged album_name f]) ++ suf) cov]> (fs w)).
    { rewrite Hfs. unfold store_file. simpl. rewrite Hd. simpl.
      rewrite insert_app_r. simpl. rewrite <- app_assoc. reflexivity. }
    destruct (IH (pre ++ [retagged album_name f])%list w1) as (w' & Hloop & Hfs').
    { rewrite Hd1. apply lookup_insert_eq. }
    exists w'. split.
    + rewrite <- Hloop. f_equal. apply imap_ext. intros i x _. simpl.
      rewrite length_app. simpl. f_equal. lia.
    + rewrite Hfs', Hd1, insert_insert_eq. rewrite <- app_assoc. reflexivity.
Qed.

(** C7, as the code has it. On a valid folder [update_m4a_metadata] ends
    normally and every matched file whose tags are read and saved without
    error loses its album tag, which is then set to the given value when
    that value is a non-empty string.  With no value, or with the empty
    string, re-reading the file finds no album tag.  The other tags, the
    files that fail, the cover file and the other folders stay as they
    were. *)
Theorem update_m4a_metadata_retags (E : externals) (folder_path : string)
    (album_name : option string) (d : directory) (w : world) :
  fs w !! folder_path = Some d ->
  exists w',
    update_m4a_metadata E folder_path album_name w = (Return tt, w') /\
    fs w' = <[folder_path := mkDir (retagged album_name <$> m4a_files d) (cover_jpg d)]> (fs w) /\
    forall i f audio,
      m4a_files d !! i = Some f -> content f = inr audio -> save_error f = None ->
      exists audio',
        MP4_open (mkPath folder_path i (file_name f) (file_stem f)) w' = (Return audio', w') /\
        text_tags audio' !! key_alb
        = (if truthy_str album_name then Some [fmt album_name] else None) /\
        (forall key, key <> key_alb -> text_tags audio' !! key = text_tags audio !! key) /\
        covr audio' = covr audio.
Proof.
  intros Hd. unfold update_m4a_metadata.
  rewrite (bind_return _ _ _ _ _ (is_dir_true _ _ _ _ Hd)).
  cbv beta. change (negb true) with false. cbv iota.
  rewrite (bind_return _ _ _ _ _ (glob_m4a_run _ _ _ _ Hd)).
  destruct d as [files cov].
  destruct (update_loop album_name folder_path cov files [] w Hd) as (w' & Hloop & Hfs).
  exists w'. split; [exact Hloop |]. split; [exact Hfs |].
  intros i f audio Hi Hc Hs. simpl in Hi.
  assert (Hf : lookup_file w' (mkPath folder_path i (file_name f) (file_stem f))
               = Some (retagged album_name f)).
  { unfold lookup_file. simpl. rewrite Hfs, lookup_insert_eq. simpl.
    rewrite list_lookup_fmap, Hi. reflexivity. }
  unfold retagged in Hf. rewrite Hc, Hs in Hf.
  eexists. split; [apply (MP4_open_run _ _ _ w' Hf); reflexivity |].
  simpl. split; [| split; [| reflexivity]].
  - destruct (truthy_str album_name); [apply lookup_insert_eq | apply lookup_delete_eq].
  - intros key Hkey. destruct (truthy_str album_name).
    + rewrite lookup_insert_ne by congruence. apply lookup_delete_ne. congruence.
    + apply lookup_delete_ne. congruence.
Qed.

Lemma update_m4a_metadata_retags_witness :
  exists w',
    update_m4a_metadata offline "Album" None old_album = (Return tt, w') /\
    fs w' = <[ "Album" := mkDir (retagged None <$>
                                   [good_file "song.m4a" "song" [(key_alb, ["Old"])]]) None]>
              (fs old_album) /\
    forall i f audio,
      [good_file "song.m4a" "song" [(key_alb, ["Old"])]] !! i = Some f ->
      content f = inr audio -> save_error f = None ->
      exists audio',
        MP4_open (mkPath "Album" i (file_name f) (file_stem f)) w' = (Return audio', w') /\
        text_tags audio' !! key_alb = None /\
        (forall key, key <> key_alb -> text_tags audio' !! key = text_tags audio !! key) /\
        covr audio' = covr audio.
Proof.
  apply (update_m4a_metadata_retags offline "Album" None
           (mkDir [good_file "song.m4a" "song" [(key_alb, ["Old"])]] None) old_album).
  reflexivity.
Defined.

(** C7 as stated fails for a value that is given but empty: [set] with
    the album name [""] does not set the tag to that value, it leaves the
    file without an album tag. *)
Lemma empty_album_name_deletes :
  (album_file_tags old_album 0 ≫= fun audio => text_tags audio !! key_alb) = Some ["Old"] /\
  fst (metadata_main offline ["metadata.py"; "set"; "Album"; EmptyString] old_album)
  = Return tt /\
  rev (log (snd (metadata_main offline ["metadata.py"; "set"; "Album"; EmptyString] old_album)))
  = [Print "✓ song.m4a"; Print "Album set to: "] /\
  (album_file_tags
     (snd (metadata_main offline ["metadata.py"; "set"; "Album"; EmptyString] old_album)) 0
     ≫= fun audio => text_tags audio !! key_alb) = None.
Proof. vm_compute. repeat split. Qed.

(** What the code does keep of C2: whenever a run of shared mode reports
    a failed file, the folder's [cover.jpg] is as it was before the run. *)

Lemma same_cover_refl (folder_path : string) (w : world) : same_cover folder_path w w.
Proof. reflexivity. Qed.

Lemma same_cover_trans (folder_path : string) (w1 w2 w3 : world) :
  same_cover folder_path w1 w2 -> same_cover folder_path w2 w3 ->
  same_cover folder_path w1 w3.
Proof. unfold same_cover. intros H12 H23. rewrite H23. exact H12. Qed.

Lemma same_fs_cover (folder_path : string) (w w' : world) :
  same_fs w w' -> same_cover folder_path w w'.
Proof. unfold same_fs, same_cover. intros ->. reflexivity. Qed.

Lemma keeps_fs_MP4_open (p : m4a_path) : keeps same_fs (MP4_open p).
Proof.
  intros w. unfold MP4_open. destruct (lookup_file w p) as [f |]; [| reflexivity].
  destruct (content f); reflexivity.
Qed.

Lemma keeps_fs_cover_exists (E : externals) (folder_path : string) :
  keeps same_fs (cover_exists E folder_path).
Proof.
  intros w. unfold cover_exists. destruct (fs w !! folder_path); [reflexivity |].
  destruct (Path_status E folder_path); reflexivity.
Qed.

Lemma keeps_fs_cover_read_bytes (folder_path : string) :
  keeps same_fs (cover_read_bytes folder_path).
Proof.
  intros w. unfold cover_read_bytes.
  destruct (fs w !! folder_path) as [d |]; [| reflexivity].
  destruct (cover_jpg d) as [c |]; [| reflexivity].
  destruct (cover_read c); reflexivity.
Qed.

Lemma keeps_fs_load_local_cover (E : externals) (folder_path : string) :
  keeps same_fs (load_local_cover E folder_path).
Proof.
  pose proof (keeps_fs_cover_exists E). pose proof keeps_fs_cover_read_bytes.
  unfold load_local_cover. repeat kfs.
Qed.

Lemma keeps_fs_folder_artwork (E : externals) (folder_path : string) (files : list m4a_path) :
  keeps same_fs (folder_artwork E folder_path files).
Proof.
  pose proof (keeps_fs_load_local_cover E). pose proof (keeps_fs_resize_image E).
  pose proof (keeps_fs_search_album_art E). pose proof keeps_fs_MP4_open.
  unfold folder_artwork, folder_search_text, first_or_none. repeat kfs.
Qed.

Lemma keeps_cover_MP4_save (folder_path : string) (p : m4a_path) (audio : MP4) :
  keeps (same_cover folder_path) (MP4_save p audio).
Proof.
  intros w. unfold MP4_save, lookup_file, store_file, same_cover.
  destruct (fs w !! parent p) as [d |] eqn:Hd; [| reflexivity]. simpl.
  destruct (m4a_files d !! index p) as [f |]; [| reflexivity].
  destruct (save_error f); [reflexivity |]. simpl.
  destruct (decide (parent p = folder_path)) as [<- | Hne].
  - rewrite lookup_insert_eq, Hd. reflexivity.
  - rewrite lookup_insert_ne by exact Hne. reflexivity.
Qed.

Lemma keeps_cover_write_loop (folder_path : string) (image_data : bytes)
    (files : list m4a_path) (counts : nat * nat) :
  keeps (same_cover folder_path) (for_each files (write_shared_cover image_data) counts).
Proof.
  assert (Hfs : forall A (m : M A), keeps same_fs m -> keeps (same_cover folder_path) m).
  { intros A m Hm w. apply same_fs_cover, Hm. }
  pose proof (keeps_cover_MP4_save folder_path).
  pose proof (fun p => Hfs _ _ (keeps_fs_MP4_open p)).
  pose proof (fun l => Hfs _ _ (keeps_fs_print l)).
  unfold write_shared_cover.
  repeat kstep_for (same_cover folder_path) (same_cover_refl folder_path)
    (same_cover_trans folder_path).
Qed.

(** Whenever a run of shared mode reports at least one failed file, the
    folder's [cover.jpg] is afterwards what it was before the run. *)
Lemma cover_kept_when_a_write_fails (E : externals) (folder_path : string)
    (succeeded failed : nat) (w w' : world) :
  add_album_art_to_folder E folder_path w = (Return (succeeded, failed), w') ->
  failed <> 0%nat -> same_cover folder_path w w'.
Proof.
  unfold add_album_art_to_folder. intros Hrun Hfailed.
  apply bind_inv in Hrun as (valid & w0 & Hdir & Hrun).
  apply is_dir_inv in Hdir as ->.
  destruct valid; cbn [negb] in Hrun; cbv iota in Hrun.
  - apply bind_inv in Hrun as (globbed & w0 & Hglob & Hrun).
    apply glob_m4a_inv in Hglob as ->.
    destruct globbed as [| p files].
    { injection Hrun as _ _ <-. reflexivity. }
    apply bind_inv in Hrun as (art & w1 & Hart & Hrun).
    pose proof (keeps_fs_folder_artwork E folder_path (p :: files) w) as Hfs1.
    rewrite Hart in Hfs1. simpl in Hfs1.
    destruct (returns_for_each (p :: files) (write_shared_cover (fst art))
                (returns_write_shared_cover (fst art)) (0, 0)%nat w1)
      as (counts & w2 & Hloop).
    pose proof (keeps_cover_write_loop folder_path (fst art) (p :: files) (0, 0)%nat w1)
      as Hcov2.
    rewrite Hloop in Hcov2. simpl in Hcov2.
    rewrite (bind_return _ _ _ _ _ Hloop) in Hrun.
    apply same_cover_trans with w1; [apply same_fs_cover; exact Hfs1 |].
    apply same_cover_trans with w2; [exact Hcov2 |].
    destruct (snd art && (snd counts =? 0)%nat && (0 <? fst counts)%nat) eqn:Hcond.
    + exfalso.
      apply andb_prop in Hcond as [Hcond _]. apply andb_prop in Hcond as [_ Hzero].
      apply Nat.eqb_eq in Hzero.
      match type of Hrun with
      | bind ?m _ w2 = _ => assert (Hdel : returns m) by msolve
      end.
      destruct (Hdel w2) as ([] & w3 & Hdel3).
      rewrite (bind_return _ _ _ _ _ Hdel3) in Hrun.
      unfold print_results, bind, print, emit, ret in Hrun.
      injection Hrun as Hcounts _. rewrite Hcounts in Hzero. simpl in Hzero.
      contradiction.
    + unfold print_results, bind, print, emit, ret in Hrun.
      injection Hrun as _ <-. reflexivity.
  - injection Hrun as _ _ <-. unfold same_cover. reflexivity.
Qed.

(** * Further properties of the two scripts *)

(** ** The remote lookup *)

(** With neither a title nor an artist there is nothing to search for:
    no request is made, nothing is printed by [search_musicbrainz], and
    [search_album_art] gives up without contacting either service. *)
Theorem search_without_terms (E : externals) (title artist : option string) (w : world) :
  truthy_str title = false -> truthy_str artist = false ->
  search_musicbrainz E title artist w = (Return None, w) /\
  exists w',
    search_album_art E title artist w = (Return None, w') /\
    same_requests w w' /\ same_fs w w'.
Proof.
  intros Ht Ha.
  assert (Hmb : forall w0, search_musicbrainz E title artist w0 = (Return None, w0)).
  { intros w0. unfold search_musicbrainz. rewrite Ht, Ha. reflexivity. }
  split; [apply Hmb |].
  unfold search_album_art.
  rewrite (bind_return _ _ _ _ _ (print_run _ _)).
  rewrite (bind_return _ _ _ _ _ (Hmb _)).
  simpl. eexists. split; [reflexivity |]. split; reflexivity.
Qed.

Lemma search_without_terms_witness :
  search_musicbrainz online (Some EmptyString) None no_folders = (Return None, no_folders) /\
  exists w',
    search_album_art online (Some EmptyString) None no_folders = (Return None, w') /\
    same_requests no_folders w' /\ same_fs no_folders w'.
Proof. apply (search_without_terms online); reflexivity. Defined.

(** [search_musicbrainz] always returns; it makes no request or exactly
    one, and a release id comes only from a response with status 200. *)
Lemma search_musicbrainz_cases (E : externals) (title artist : option string) (w : world) :
  exists r w',
    search_musicbrainz E title artist w = (Return r, w') /\ fs w' = fs w /\
    ((truthy_str title = false /\ truthy_str artist = false /\
      r = None /\ requests (log w') = requests (log w)) \/
     exists q,
       requests (log w') = GetRecording q :: requests (log w) /\
       (r = None \/
        exists rid recs rels,
          r = Some rid /\
          musicbrainz E (log w) q
          = Response 200 (inr (mkRecording (mkRelease (Some rid) :: rels) :: recs)))).
Proof.
  unfold search_musicbrainz.
  set (parts := List.app _ _).
  assert (Hparts : parts = [] -> truthy_str title = false /\ truthy_str artist = false).
  { subst parts. destruct (truthy_str title), (truthy_str artist); simpl;
      intros Hnil; try discriminate. split; reflexivity. }
  destruct parts as [| part parts].
  { exists None, w. split; [reflexivity |]. split; [reflexivity |]. left.
    destruct (Hparts eq_refl) as [Ht Ha]. repeat split; assumption. }
  clear Hparts. set (q := join " AND " (part :: parts)).
  unfold try_except, bind, requests_get_recording.
  destruct (musicbrainz E (log w) q) as [msg | code body] eqn:Hmb.
  { eexists _, _. split; [reflexivity |]. split; [reflexivity |].
    right. exists q. split; [reflexivity | left; reflexivity]. }
  cbv beta iota. cbn [fst snd].
  destruct (code =? 200) eqn:Hcode.
  2:{ eexists _, _. split; [reflexivity |]. split; [reflexivity |].
      right. exists q. split; [reflexivity | left; reflexivity]. }
  apply Z.eqb_eq in Hcode. subst code.
  unfold first_release_id.
  destruct body as [msg | [| [[| [[rid |] ] rels] ] recs]];
    try (eexists _, _; split; [reflexivity |]; split; [reflexivity |];
         right; exists q; split; [reflexivity | left; reflexivity]).
  eexists _, _. split; [reflexivity |]. split; [reflexivity |].
  right. exists q. split; [reflexivity |]. right. exists rid, recs, rels.
  split; [reflexivity | exact Hmb].
Qed.

(** [get_cover_art] always returns after exactly one request, and bytes
    come only from a response with status 200. *)
Lemma get_cover_art_cases (E : externals) (release_id : string) (w : world) :
  exists r w',
    get_cover_art E release_id w = (Return r, w') /\ fs w' = fs w /\
    requests (log w') = GetCoverArt release_id :: requests (log w) /\
    (forall b, r = Some b -> coverartarchive E (log w) release_id = Response 200 b).
Proof.
  unfold get_cover_art, try_except, bind, requests_get_cover.
  destruct (coverartarchive E (log w) release_id) as [msg | code body].
  { eexists _, _. split; [reflexivity |]. split; [reflexivity |].
    split; [reflexivity | discriminate]. }
  cbv beta iota. cbn [fst snd].
  destruct (code =? 200) eqn:Hcode.
  - apply Z.eqb_eq in Hcode. subst code.
    eexists _, _. split; [reflexivity |]. split; [reflexivity |].
    split; [reflexivity |]. intros b [= ->]. reflexivity.
  - eexists _, _. split; [reflexivity |]. split; [reflexivity |].
    split; [reflexivity | discriminate].
Qed.

(** The requests of one lookup, most recent first: none, one recording
    search, or one recording search followed by one cover fetch; the cover
    is fetched only for a non-empty release id that MusicBrainz returned
    with status 200. *)
Lemma search_album_art_log (E : externals) (title artist : option string) (w : world) :
  let w' := snd (search_album_art E title artist w) in
  let asked := Print "  Searching MusicBrainz..." :: log w in
  requests (log w') = requests (log w) \/
  exists q,
    requests (log w') = GetRecording q :: requests (log w) \/
    exists rid recs rels,
      rid <> EmptyString /\
      musicbrainz E asked q
      = Response 200 (inr (mkRecording (mkRelease (Some rid) :: rels) :: recs)) /\
      requests (log w') = GetCoverArt rid :: GetRecording q :: requests (log w).
Proof.
  cbv zeta. unfold search_album_art.
  rewrite (bind_return _ _ _ _ _ (print_run _ _)).
  destruct (search_musicbrainz_cases E title artist
              (mkWorld (fs w) (Print "  Searching MusicBrainz..." :: log w)))
    as (r & w1 & Hrun & _ & Hreq).
  rewrite (bind_return _ _ _ _ _ Hrun). simpl in Hreq.
  destruct Hreq as [(_ & _ & -> & Hreq) | (q & Hreq & Hr)]; [left; simpl; exact Hreq |].
  right. exists q.
  destruct Hr as [-> | (rid & recs & rels & -> & Hmb)]; [left; simpl; exact Hreq |].
  destruct rid as [| c rid]; [left; simpl; exact Hreq |].
  right. exists (String c rid), recs, rels.
  split; [discriminate |]. split; [exact Hmb |].
  change (negb (truthy_str (Some (String c rid)))) with false. cbv iota.
  rewrite (bind_return _ _ _ _ _ (print_run _ _)).
  destruct (get_cover_art_cases E (String c rid)
              (mkWorld (fs w1) (Print "  Found release, fetching cover art..." :: log w1)))
    as (cover & w2 & Hcov & _ & Hreq2 & _).
  change (fmt (Some (String c rid))) with (String c rid).
  rewrite (bind_return _ _ _ _ _ Hcov). simpl in Hreq2. rewrite Hreq in Hreq2.
  destruct (truthy_bytes cover); simpl; exact Hreq2.
Qed.

(** One lookup makes at most one recording search and at most one cover
    fetch, in that order, and fetches a cover only for a non-empty
    release id that the recording search returned with status 200. *)
Theorem search_album_art_requests (E : externals) (title artist : option string)
    (w : world) :
  let w' := snd (search_album_art E title artist w) in
  let asked := Print "  Searching MusicBrainz..." :: log w in
  requests (log w') = requests (log w) \/
  exists q,
    requests (log w') = GetRecording q :: requests (log w) \/
    exists rid recs rels,
      rid <> EmptyString /\
      musicbrainz E asked q
      = Response 200 (inr (mkRecording (mkRelease (Some rid) :: rels) :: recs)) /\
      requests (log w') = GetCoverArt rid :: GetRecording q :: requests (log w).
Proof. apply search_album_art_log. Qed.

(** A lookup that finds something returns bytes that are not empty and
    that the cover service sent with status 200 for a non-empty release
    id. *)
Theorem search_album_art_found (E : externals) (title artist : option string)
    (w : world) (b : bytes) :
  fst (search_album_art E title artist w) = Return (Some b) ->
  b <> [] /\
  exists history rid,
    rid <> EmptyString /\ coverartarchive E history rid = Response 200 b.
Proof.
  unfold search_album_art.
  rewrite (bind_return _ _ _ _ _ (print_run _ _)).
  destruct (search_musicbrainz_cases E title artist
              (mkWorld (fs w) (Print "  Searching MusicBrainz..." :: log w)))
    as (r & w1 & Hrun & _ & _).
  rewrite (bind_return _ _ _ _ _ Hrun).
  destruct r as [[| c rid] |]; simpl; try discriminate.
  change (negb (truthy_str (Some (String c rid)))) with false. cbv iota.
  rewrite (bind_return _ _ _ _ _ (print_run _ _)).
  destruct (get_cover_art_cases E (String c rid)
              (mkWorld (fs w1) (Print "  Found release, fetching cover art..." :: log w1)))
    as (cover & w2 & Hcov & _ & _ & Hsent).
  change (fmt (Some (String c rid))) with (String c rid).
  rewrite (bind_return _ _ _ _ _ Hcov).
  destruct cover as [[| x rest] |]; simpl; try discriminate.
  intros [= <-]. split; [discriminate |].
  eexists _, (String c rid). split; [discriminate |]. apply Hsent. reflexivity.
Qed.

Lemma search_album_art_found_witness :
  toy_encode 600 300 <> [] /\
  exists history rid,
    rid <> EmptyString /\ coverartarchive online history rid = Response 200 (toy_encode 600 300).
Proof.
  apply (search_album_art_found online (Some "Yesterday") (Some "Beatles") no_folders).
  vm_compute. reflexivity.
Defined.

(** ** The local cover *)


(** ** Shared mode: what a run leaves behind *)

Lemma load_local_cover_run (E : externals) (folder_path : string) (d : directory)
    (w : world) :
  fs w !! folder_path = Some d ->
  exists r w1, load_local_cover E folder_path w = (Return r, w1) /\ same_fs w w1.
Proof.
  intros Hd. unfold load_local_cover, bind, cover_exists, try_except, cover_read_bytes.
  rewrite Hd. destruct (cover_jpg d) as [c |] eqn:Hc; simpl.
  - rewrite Hd, Hc. destruct (cover_read c); eexists _, _; split; reflexivity.
  - eexists _, _. split; reflexivity.
Qed.

Lemma folder_artwork_run (E : externals) (folder_path : string) (files : list m4a_path)
    (d : directory) (w : world) :
  fs w !! folder_path = Some d ->
  exists art used w1,
    folder_artwork E folder_path files w = (Return (art, used), w1) /\ same_fs w w1.
Proof.
  intros Hd.
  assert (Hret : exists r w1, folder_artwork E folder_path files w = (Return r, w1)).
  { unfold folder_artwork.
    rewrite (bind_return _ _ _ _ _ (print_run _ _)).
    match goal with
    | |- context [bind (load_local_cover _ _) ?k ?w0] =>
        destruct (load_local_cover_run E folder_path d w0 Hd) as (loaded & w1 & Hload & _)
    end.
    rewrite (bind_return _ _ _ _ _ Hload).
    match goal with
    | |- exists r w2, ?m w1 = _ => cut (returns m); [intros Hm; apply Hm |]
    end.
    pose proof (returns_resize_image E). pose proof (returns_folder_search_text E).
    pose proof (returns_search_album_art E). msolve. }
  destruct Hret as ([art used] & w1 & Hrun).
  exists art, used, w1. split; [exact Hrun |].
  pose proof (keeps_fs_folder_artwork E folder_path files w) as Hfs.
  rewrite Hrun in Hfs. exact Hfs.
Qed.

Lemma write_shared_cover_run (image_data : bytes) (p : m4a_path) (f : m4a_file)
    (counts : nat * nat) (w : world) :
  lookup_file w p = Some f ->
  exists w',
    write_shared_cover image_data p counts w
    = (Return (if writable f then (S (fst counts), snd counts)
               else (fst counts, S (snd counts))), w') /\
    fs w' = fs (store_file w p (covered image_data f)).
Proof.
  intros Hf. unfold write_shared_cover, writable, covered.
  destruct (content f) as [msg | audio] eqn:Hc.
  - erewrite try_except_raise by (apply bind_raise, (MP4_open_raise p f msg w Hf Hc)).
    eexists. split; [reflexivity |]. simpl. symmetry. apply store_file_id. exact Hf.
  - destruct (save_error f) as [msg |] eqn:Hs.
    + erewrite try_except_raise.
      2:{ rewrite (bind_return _ _ _ _ _ (MP4_open_run p f audio w Hf Hc)).
          cbv zeta. apply bind_raise, (MP4_save_raise p f _ msg w Hf Hs). }
      eexists. split; [reflexivity |]. simpl. symmetry. apply store_file_id. exact Hf.
    + erewrite try_except_return.
      2:{ rewrite (bind_return _ _ _ _ _ (MP4_open_run p f audio w Hf Hc)).
          cbv zeta. rewrite (bind_return _ _ _ _ _ (MP4_save_run p f _ w Hf Hs)).
          rewrite (bind_return _ _ _ _ _ (print_run _ _)). reflexivity. }
      eexists. split; reflexivity.
Qed.

(** The write loop of shared mode, started after the files [pre] have
    been handled. *)
Lemma write_loop (image_data : bytes) (folder_path : string) (cov : option cover_file)
    (suf pre : list m4a_file) (counts : nat * nat) (w : world) :
  fs w !! folder_path = Some (mkDir (pre ++ suf) cov) ->
  exists w',
    for_each
      (imap (fun i f => mkPath folder_path (length pre + i) (file_name f) (file_stem f)) suf)
      (write_shared_cover image_data) counts w
    = (Return (fst counts + length (List.filter writable suf),
               snd counts + length (List.filter (fun f => negb (writable f)) suf))%nat,
       w') /\
    fs w' = <[folder_path := mkDir (pre ++ (covered image_data <$> suf)) cov]> (fs w).
Proof.
  revert pre counts w. induction suf as [| f suf IH]; intros pre counts w Hd.
  - exists w. simpl. rewrite !Nat.add_0_r. split; [destruct counts; reflexivity |].
    symmetry. apply insert_id. exact Hd.
  - rewrite imap_cons. simpl for_each.
    set (p := mkPath folder_path (length pre + 0) (file_name f) (file_stem f)).
    assert (Hf : lookup_file w p = Some f).
    { unfold lookup_file. simpl. rewrite Hd. simpl.
      rewrite Nat.add_0_r. apply list_lookup_middle. reflexivity. }
    destruct (write_shared_cover_run image_data p f counts w Hf) as (w1 & Hrun & Hfs).
    rewrite (bind_return _ _ _ _ _ Hrun).
    assert (Hd1 : fs w1 = <[folder_path :=
                              mkDir ((pre ++ [covered image_data f]) ++ suf) cov]> (fs w)).
    { rewrite Hfs. unfold store_file. simpl. rewrite Hd. simpl.
      rewrite insert_app_r. simpl. rewrite <- app_assoc. reflexivity. }
    destruct (IH (pre ++ [covered image_data f])%list
                (if writable f then (S (fst counts), snd counts)
                 else (fst counts, S (snd counts))) w1) as (w' & Hloop & Hfs').
    { rewrite Hd1. apply lookup_insert_eq. }
    exists w'. split.
    + erewrite imap_ext; [rewrite Hloop |].
      * apply (f_equal (fun c : nat * nat => (Return c, w'))).
        simpl List.filter. destruct (writable f); simpl;
          apply pair_equal_spec; split; lia.
      * intros i x _. simpl. rewrite length_app. simpl. f_equal. lia.
    + rewrite Hfs', Hd1, insert_insert_eq. rewrite <- app_assoc. reflexivity.
Qed.

Lemma cover_unlink_run (folder_path : string) (d : directory) (c : cover_file) (w : world) :
  fs w !! folder_path = Some d -> cover_jpg d = Some c -> unlink_error c = None ->
  cover_unlink folder_path w
  = (Return tt, mkWorld (<[folder_path := mkDir (m4a_files d) None]> (fs w)) (log w)).
Proof. intros Hd Hc Hu. unfold cover_unlink. rewrite Hd, Hc, Hu. reflexivity. Qed.

Lemma cover_unlink_raise (folder_path : string) (d : directory) (w : world) :
  fs w !! folder_path = Some d ->
  match cover_jpg d with Some c => unlink_error c <> None | None => True end ->
  exists msg, cover_unlink folder_path w = (Raise msg, w).
Proof.
  intros Hd Hc. unfold cover_unlink. rewrite Hd.
  destruct (cover_jpg d) as [c |]; [| eexists; reflexivity].
  destruct (unlink_error c); [eexists; reflexivity | contradiction].
Qed.

Lemma match_nonempty {A B : Type} (l : list A) (a b : B) :
  l <> [] -> match l with [] => a | _ :: _ => b end = b.
Proof. destruct l; [contradiction | reflexivity]. Qed.

Lemma paths_of_nonempty (folder_path : string) (d : directory) :
  m4a_files d <> [] -> paths_of folder_path d <> [].
Proof. unfold paths_of. destruct (m4a_files d); [contradiction | discriminate]. Qed.

(** A whole run of shared mode on a folder with at least one matched
    file: the counts, and the folder afterwards. *)
Lemma add_album_art_to_folder_run (E : externals) (folder_path : string)
    (files : list m4a_file) (cov : option cover_file) (w : world) :
  fs w !! folder_path = Some (mkDir files cov) -> files <> [] ->
  let ok := length (List.filter writable files) in
  let bad := length (List.filter (fun f => negb (writable f)) files) in
  exists art used w1,
    folder_artwork E folder_path (paths_of folder_path (mkDir files cov)) w
    = (Return (art, used), w1) /\
    exists w',
    add_album_art_to_folder E folder_path w = (Return (ok, bad), w') /\
    fs w' = <[folder_path :=
               mkDir (covered art <$> files)
                 (if used && (bad =? 0)%nat && (0 <? ok)%nat
                  then match cov with
                       | Some c => match unlink_error c with Some _ => cov | None => None end
                       | None => cov
                       end
                  else cov)]> (fs w).
Proof.
  intros Hd Hne ok bad. unfold add_album_art_to_folder.
  rewrite (bind_return _ _ _ _ _ (is_dir_true _ _ _ _ Hd)).
  cbv beta. change (negb true) with false. cbv iota.
  rewrite (bind_return _ _ _ _ _ (glob_m4a_run _ _ _ _ Hd)).
  destruct (folder_artwork_run E folder_path (paths_of folder_path (mkDir files cov)) _ w Hd)
    as (art & used & w1 & Hart & Hfs1).
  exists art, used, w1.
  assert (Hd1 : fs w1 !! folder_path = Some (mkDir ([] ++ files) cov)).
  { rewrite Hfs1. exact Hd. }
  destruct (write_loop art folder_path cov files [] (0, 0)%nat w1 Hd1)
    as (w2 & Hloop & Hfs2).
  simpl in Hloop, Hfs2. fold ok bad in Hloop. rewrite Hfs1 in Hfs2.
  split; [exact Hart |].
  rewrite match_nonempty by (apply paths_of_nonempty; exact Hne).
  rewrite (bind_return _ _ _ _ _ Hart).
  cbn [fst snd]. unfold paths_of at 1. cbn [m4a_files].
  rewrite (bind_return _ _ _ _ _ Hloop). cbn [fst snd].
  assert (Hd2 : fs w2 !! folder_path = Some (mkDir (covered art <$> files) cov)).
  { rewrite Hfs2. apply lookup_insert_eq. }
  destruct (used && (bad =? 0)%nat && (0 <? ok)%nat).
  - destruct cov as [c |]; [destruct (unlink_error c) as [msg |] eqn:Hu |].
    + destruct (cover_unlink_raise folder_path _ w2 Hd2) as (e & Hraise).
      { simpl. rewrite Hu. discriminate. }
      rewrite (bind_return _ _ _ _ _
                 (eq_trans
                    (try_except_raise _
                       (fun e => print (nl +:+ "⚠ Could not delete cover.jpg: " +:+ e))
                       _ _ _ (bind_raise _ _ _ _ _ Hraise))
                    (print_run _ _))).
      eexists. split; [reflexivity |]. simpl. exact Hfs2.
    + erewrite bind_return.
      2:{ apply try_except_return.
          rewrite (bind_return _ _ _ _ _ (cover_unlink_run folder_path _ c w2 Hd2 eq_refl Hu)).
          apply print_run. }
      eexists. split; [reflexivity |]. simpl.
      rewrite Hfs2, insert_insert_eq. reflexivity.
    + destruct (cover_unlink_raise folder_path _ w2 Hd2) as (e & Hraise); [exact I |].
      rewrite (bind_return _ _ _ _ _
                 (eq_trans
                    (try_except_raise _
                       (fun e => print (nl +:+ "⚠ Could not delete cover.jpg: " +:+ e))
                       _ _ _ (bind_raise _ _ _ _ _ Hraise))
                    (print_run _ _))).
      eexists. split; [reflexivity |]. simpl. exact Hfs2.
  - eexists. split; [reflexivity |]. simpl. exact Hfs2.
Qed.


Lemma all_writable_counts (files : list m4a_file) :
  forallb writable files = true ->
  length (List.filter writable files) = length files /\
  length (List.filter (fun f => negb (writable f)) files) = 0%nat.
Proof.
  induction files as [| f files IH]; [split; reflexivity |].
  simpl. intros Hall. apply andb_prop in Hall as [Hf Hall].
  rewrite Hf. simpl. destruct (IH Hall) as [-> ->]. split; reflexivity.
Qed.





(** A folder without matched files is left alone: shared mode prints one
    line and returns (0, 0); it reads no [cover.jpg], removes none and asks
    no service. *)
Theorem shared_mode_empty_folder (E : externals) (folder_path : string) (d : directory)
    (w : world) :
  fs w !! folder_path = Some d -> m4a_files d = [] ->
  add_album_art_to_folder E folder_path w
  = (Return (0, 0)%nat, mkWorld (fs w) (Print "No .m4a files found in folder" :: log w)) /\
  add_album_art_per_song E folder_path w
  = (Return (0, 0)%nat, mkWorld (fs w) (Print "No .m4a files found in folder" :: log w)).
Proof.
  intros Hd Hempty. split.
  - unfold add_album_art_to_folder.
    rewrite (bind_return _ _ _ _ _ (is_dir_true _ _ _ _ Hd)).
    cbv beta. change (negb true) with false. cbv iota.
    rewrite (bind_return _ _ _ _ _ (glob_m4a_run _ _ _ _ Hd)).
    unfold paths_of. rewrite Hempty. reflexivity.
  - unfold add_album_art_per_song.
    rewrite (bind_return _ _ _ _ _ (is_dir_true _ _ _ _ Hd)).
    cbv beta. change (negb true) with false. cbv iota.
    rewrite (bind_return _ _ _ _ _ (glob_m4a_run _ _ _ _ Hd)).
    unfold paths_of. rewrite Hempty. reflexivity.
Qed.

Lemma shared_mode_empty_folder_witness :
  add_album_art_to_folder online "Album"
    (one_folder (mkDir [] (Some (mkCover (inr (toy_encode 3 2)) None))))
  = (Return (0, 0)%nat,
     mkWorld (fs (one_folder (mkDir [] (Some (mkCover (inr (toy_encode 3 2)) None)))))
       [Print "No .m4a files found in folder"]).
Proof.
  apply (shared_mode_empty_folder online "Album"
           (mkDir [] (Some (mkCover (inr (toy_encode 3 2)) None)))); reflexivity.
Defined.

Lemma folder_artwork_local (E : externals) (folder_path : string) (d : directory)
    (c : cover_file) (b : bytes) (files : list m4a_path) (w : world) :
  fs w !! folder_path = Some d -> cover_jpg d = Some c -> cover_read c = inr b ->
  b <> [] ->
  exists w',
    folder_artwork E folder_path files w
    = (Return (match fst (resize_image E b 512 w) with
               | Return (Some (x :: rest)) => x :: rest
               | _ => create_default_artwork E 512
               end, true), w').
Proof.
  intros Hd Hc Hb Hne. destruct b as [| x0 b0]; [contradiction |].
  unfold folder_artwork.
  rewrite (bind_return _ _ _ _ _ (print_run _ _)).
  erewrite bind_return by (apply (load_local_cover_found E folder_path d c); eassumption).
  cbv beta. change (truthy_bytes (Some (x0 :: b0))) with true. cbv iota.
  destruct (Image_open E (x0 :: b0)) as [msg | img] eqn:Hopen.
  - rewrite (resize_image_undecoded E _ 512 msg w Hopen). cbn [fst].
    erewrite bind_return.
    2:{ rewrite (bind_return _ _ _ _ _ (print_run _ _)).
        rewrite (bind_return _ _ _ _ _ (resize_image_undecoded E _ 512 msg _ Hopen)).
        reflexivity. }
    eexists. reflexivity.
  - rewrite (resize_image_decoded E _ 512 img w Hopen). cbn [fst].
    erewrite bind_return.
    2:{ rewrite (bind_return _ _ _ _ _ (print_run _ _)).
        rewrite (bind_return _ _ _ _ _ (resize_image_decoded E _ 512 img _ Hopen)).
        reflexivity. }
    destruct (Image_save_JPEG E (normalized E img 512) 95) as [| y out]; simpl;
      eexists; reflexivity.
Qed.

(** The staged cover.  When the folder's [cover.jpg] is read, is not
    empty and decodes, and every matched file can be parsed and saved,
    shared mode reports all files as succeeded, writes the normalized
    cover (the decoded image converted to RGB, fitted into 512 by 512 and
    encoded as JPEG again) into each of them, and removes [cover.jpg]; if
    removing it raises, the file stays and the run returns the same
    counts.  A cover that does not decode is outside this statement: there
    the placeholder is written. *)
Theorem staged_cover_removed (E : externals) (folder_path : string) (d : directory)
    (c : cover_file) (b : bytes) (img : image) (w : world) :
  fs w !! folder_path = Some d -> m4a_files d <> [] ->
  forallb writable (m4a_files d) = true ->
  cover_jpg d = Some c -> cover_read c = inr b -> b <> [] ->
  Image_open E b = inr img ->
  let art := Image_save_JPEG E (normalized E img 512) 95 in
  art <> [] ->
  exists w',
    add_album_art_to_folder E folder_path w
    = (Return (length (m4a_files d), 0%nat), w') /\
    fs w' = <[folder_path :=
               mkDir (covered art <$> m4a_files d)
                 (match unlink_error c with Some _ => Some c | None => None end)]> (fs w).
Proof.
  intros Hd Hne Hall Hc Hb Hbne Hopen art Hart_ne.
  destruct d as [files cov]. simpl in *. subst cov.
  destruct (add_album_art_to_folder_run E folder_path files (Some c) w Hd Hne)
    as (art0 & used & w1 & Hart & w' & Hrun & Hfs).
  destruct (folder_artwork_local E folder_path _ c b
              (paths_of folder_path (mkDir files (Some c))) w Hd eq_refl Hb Hbne)
    as (w1' & Hlocal).
  rewrite (resize_image_decoded E b 512 img w Hopen) in Hlocal. cbn [fst] in Hlocal.
  fold art in Hlocal.
  assert (Hmatch : match art with x :: rest => x :: rest | [] => create_default_artwork E 512 end
                   = art).
  { destruct art; [contradiction | reflexivity]. }
  rewrite Hmatch in Hlocal.
  rewrite Hlocal in Hart. injection Hart as Hart0 Hused _.
  subst art0 used.
  destruct (all_writable_counts files Hall) as [Hok Hbad].
  rewrite Hok, Hbad in Hrun, Hfs.
  exists w'. split; [exact Hrun |]. rewrite Hfs.
  assert (Hpos : (0 <? length files)%nat = true).
  { apply Nat.ltb_lt. destruct files; [contradiction | simpl; lia]. }
  rewrite Hpos. reflexivity.
Qed.

Lemma staged_cover_removed_witness :
  exists w',
    add_album_art_to_folder online "Album"
      (one_folder (mkDir abbey_road (Some (mkCover (inr (toy_encode 600 300)) None))))
    = (Return (1, 0)%nat, w') /\
    fs w' = <[ "Album" :=
               mkDir (covered (toy_encode 512 256) <$> abbey_road) None]>
              (fs (one_folder
                     (mkDir abbey_road (Some (mkCover (inr (toy_encode 600 300)) None))))).
Proof.
  apply (staged_cover_removed online "Album"
           (mkDir abbey_road (Some (mkCover (inr (toy_encode 600 300)) None)))
           (mkCover (inr (toy_encode 600 300)) None) (toy_encode 600 300)
           (Image "RGB" 600 300 (fun _ _ => [0; 0; 0]%N)));
    [reflexivity | discriminate | reflexivity | reflexivity | reflexivity | discriminate
    | reflexivity | discriminate].
Defined.

(** ** Shared mode without a local cover *)

Lemma first_or_none_inv (audio : MP4) (key : string) (w w' : world) (r : option string) :
  first_or_none audio key w = (Return r, w') -> r = tag audio key.
Proof.
  unfold first_or_none, tag.
  destruct (text_tags audio !! key) as [[| v rest] |]; simpl; intros [= <- _]; reflexivity.
Qed.







(** ** Per-file mode: what a run leaves behind *)

Lemma song_search_text_outcome (p : m4a_path) (audio : MP4) (w : world) :
  (exists search, song_search_text p audio w = (Return search, w)) \/
  (exists msg, song_search_text p audio w = (Raise msg, w)).
Proof.
  unfold song_search_text, bind, first_or_none.
  destruct (text_tags audio !! key_nam) as [[| t ts] |];
    [right; eexists; reflexivity | |];
    (destruct (text_tags audio !! key_ART) as [[| a l] |];
     [right; eexists; reflexivity | left; eexists; reflexivity | left; eexists; reflexivity]).
Qed.

Lemma store_file_same_fs (w1 w2 : world) (p : m4a_path) (f : m4a_file) :
  same_fs w1 w2 -> fs (store_file w2 p f) = fs (store_file w1 p f).
Proof.
  unfold same_fs, store_file. intros Hfs. rewrite Hfs.
  destruct (fs w1 !! parent p); [reflexivity | exact Hfs].
Qed.

Lemma recovered_refl (f : m4a_file) : recovered f f.
Proof. left. reflexivity. Qed.

(** One round of the per-file loop on a file that is there: it returns,
    leaves the file as it was or with a new cover, and moves the counters
    by one or by two. *)
Lemma process_song_run (E : externals) (dflt : bytes) (p : m4a_path) (f : m4a_file)
    (counts : nat * nat) (w : world) :
  lookup_file w p = Some f ->
  exists counts' w' f',
    process_song E dflt p counts w = (Return counts', w') /\
    fs w' = fs (store_file w p f') /\ recovered f f' /\
    (fst counts <= fst counts' <= S (fst counts))%nat /\
    (S (fst counts + snd counts) <= fst counts' + snd counts'
     <= S (S (fst counts + snd counts)))%nat.
Proof.
  intros Hf. unfold process_song.
  assert (Hhandled : forall msg w0, same_fs w w0 ->
    exists counts' w' f',
      song_failed p counts msg w0 = (Return counts', w') /\
      fs w' = fs (store_file w p f') /\ recovered f f' /\
      (fst counts <= fst counts' <= S (fst counts))%nat /\
      (S (fst counts + snd counts) <= fst counts' + snd counts'
       <= S (S (fst counts + snd counts)))%nat).
  { intros msg w0 Hfs0. exists (fst counts, S (snd counts)). eexists. exists f.
    split; [reflexivity |]. simpl.
    split; [rewrite (store_file_id w p f Hf); exact Hfs0 |].
    split; [apply recovered_refl |]. lia. }
  destruct (content f) as [msg | audio] eqn:Hc.
  { erewrite try_except_raise by (apply bind_raise, (MP4_open_raise p f msg w Hf Hc)).
    apply Hhandled. reflexivity. }
  destruct (song_search_text_outcome p audio w) as [(search & Hsearch) | (msg & Hsearch)].
  2:{ erewrite try_except_raise.
      2:{ rewrite (bind_return _ _ _ _ _ (MP4_open_run p f audio w Hf Hc)).
          apply bind_raise, Hsearch. }
      apply Hhandled. reflexivity. }
  set (w1 := mkWorld (fs w)
               (Print ("Searching for: " +:+ fmt (fst search)
                       +:+ (if truthy_str (snd search)
                            then " by " +:+ fmt (snd search) else EmptyString))
                :: Print (nl +:+ name p) :: log w)).
  destruct (song_artwork_run E dflt search counts w1)
    as (art & counts1 & w2 & Hart & Hfs & Hcounts).
  assert (Hf2 : lookup_file w2 p = Some f).
  { rewrite (lookup_file_same_fs w1 w2 p Hfs). exact Hf. }
  destruct (save_error f) as [msg |] eqn:Hs.
  - exists (fst counts1, S (snd counts1)). eexists. exists f. split.
    + apply try_except_return.
      rewrite (bind_return _ _ _ _ _ (MP4_open_run p f audio w Hf Hc)).
      rewrite (bind_return _ _ _ _ _ Hsearch).
      rewrite !(bind_return _ _ _ _ _ (print_run _ _)).
      fold w1. rewrite (bind_return _ _ _ _ _ Hart).
      erewrite try_except_raise
        by (apply bind_raise, (MP4_save_raise p f _ msg w2 Hf2 Hs)).
      reflexivity.
    + simpl. split; [rewrite (store_file_id w p f Hf); exact Hfs |].
      split; [apply recovered_refl |].
      destruct Hcounts as [-> | ->]; simpl; lia.
  - exists counts1. eexists.
    exists (mkFile (file_name f) (file_stem f) (inr (set_covr audio art)) None). split.
    + apply try_except_return.
      rewrite (bind_return _ _ _ _ _ (MP4_open_run p f audio w Hf Hc)).
      rewrite (bind_return _ _ _ _ _ Hsearch).
      rewrite !(bind_return _ _ _ _ _ (print_run _ _)).
      fold w1. rewrite (bind_return _ _ _ _ _ Hart).
      apply try_except_return.
      rewrite (bind_return _ _ _ _ _ (MP4_save_run p f _ w2 Hf2 Hs)).
      rewrite (bind_return _ _ _ _ _ (print_run _ _)).
      rewrite (bind_return _ _ _ _ _ (sleep_run _ _)).
      reflexivity.
    + split; [simpl fs; apply (store_file_same_fs w w2); exact Hfs |].
      split; [right; exists audio, art; auto |].
      destruct Hcounts as [-> | ->]; simpl; lia.
Qed.

(** The per-file loop, started after the files [pre] have been handled. *)
Lemma song_loop (E : externals) (dflt : bytes) (folder_path : string)
    (cov : option cover_file) (suf pre : list m4a_file) (counts : nat * nat) (w : world) :
  fs w !! folder_path = Some (mkDir (pre ++ suf) cov) ->
  exists counts' w' suf',
    for_each
      (imap (fun i f => mkPath folder_path (length pre + i) (file_name f) (file_stem f)) suf)
      (process_song E dflt) counts w
    = (Return counts', w') /\
    fs w' = <[folder_path := mkDir (pre ++ suf') cov]> (fs w) /\
    Forall2 recovered suf suf' /\
    (fst counts <= fst counts' <= fst counts + length suf)%nat /\
    (fst counts + snd counts + length suf <= fst counts' + snd counts'
     <= fst counts + snd counts + 2 * length suf)%nat.
Proof.
  revert pre counts w. induction suf as [| f suf IH]; intros pre counts w Hd.
  - exists counts, w, []. split; [reflexivity |].
    split; [symmetry; apply insert_id; exact Hd |].
    split; [constructor |]. simpl. lia.
  - rewrite imap_cons. simpl for_each.
    set (p := mkPath folder_path (length pre + 0) (file_name f) (file_stem f)).
    assert (Hf : lookup_file w p = Some f).
    { unfold lookup_file. simpl. rewrite Hd. simpl.
      rewrite Nat.add_0_r. apply list_lookup_middle. reflexivity. }
    destruct (process_song_run E dflt p f counts w Hf)
      as (counts1 & w1 & f' & Hrun & Hfs & Hrec & Hs1 & Hsum1).
    rewrite (bind_return _ _ _ _ _ Hrun).
    assert (Hd1 : fs w1 = <[folder_path := mkDir ((pre ++ [f']) ++ suf) cov]> (fs w)).
    { rewrite Hfs. unfold store_file. simpl. rewrite Hd. simpl.
      rewrite insert_app_r. simpl. rewrite <- app_assoc. reflexivity. }
    destruct (IH (pre ++ [f'])%list counts1 w1)
      as (counts' & w' & suf' & Hloop & Hfs' & Hall & Hs & Hsum).
    { rewrite Hd1. apply lookup_insert_eq. }
    exists counts', w', (f' :: suf'). split.
    + erewrite imap_ext; [exact Hloop |].
      intros i x _. simpl. rewrite length_app. simpl. f_equal. lia.
    + split; [rewrite Hfs', Hd1, insert_insert_eq, <- app_assoc; reflexivity |].
      split; [constructor; assumption |]. simpl length. lia.
Qed.

(** A whole run of per-file mode on a valid folder. *)
Lemma add_album_art_per_song_run (E : externals) (folder_path : string)
    (files : list m4a_file) (cov : option cover_file) (w : world) :
  fs w !! folder_path = Some (mkDir files cov) ->
  exists succeeded failed w' files',
    add_album_art_per_song E folder_path w = (Return (succeeded, failed), w') /\
    fs w' = <[folder_path := mkDir files' cov]> (fs w) /\
    Forall2 recovered files files' /\
    (succeeded <= length files)%nat /\
    (length files <= succeeded + failed <= 2 * length files)%nat.
Proof.
  intros Hd. unfold add_album_art_per_song.
  rewrite (bind_return _ _ _ _ _ (is_dir_true _ _ _ _ Hd)).
  cbv beta. change (negb true) with false. cbv iota.
  rewrite (bind_return _ _ _ _ _ (glob_m4a_run _ _ _ _ Hd)).
  destruct files as [| f files].
  { exists 0%nat, 0%nat. eexists. exists []. split; [reflexivity |]. simpl.
    split; [symmetry; apply insert_id; exact Hd |]. split; [constructor | lia]. }
  rewrite match_nonempty by (apply paths_of_nonempty; discriminate).
  cbv zeta.
  destruct (song_loop E (create_default_artwork E 512) folder_path cov (f :: files) []
              (0, 0)%nat w Hd)
    as ([succeeded failed] & w1 & files' & Hloop & Hfs & Hall & Hs & Hsum).
  unfold paths_of. cbn [m4a_files]. simpl in Hloop.
  rewrite (bind_return _ _ _ _ _ Hloop).
  exists succeeded, failed. eexists. exists files'.
  split; [reflexivity |]. simpl in *.
  split; [exact Hfs |]. split; [exact Hall | lia].
Qed.

(** Per-file mode counts every matched file, some of them twice: the
    success count never exceeds the number of matched files, and the two
    counts together lie between that number and twice that number. *)
Theorem per_song_counts (E : externals) (folder_path : string) (d : directory) (w : world) :
  fs w !! folder_path = Some d ->
  exists succeeded failed w',
    add_album_art_per_song E folder_path w = (Return (succeeded, failed), w') /\
    (succeeded <= length (m4a_files d))%nat /\
    (length (m4a_files d) <= succeeded + failed <= 2 * length (m4a_files d))%nat.
Proof.
  intros Hd. destruct d as [files cov].
  destruct (add_album_art_per_song_run E folder_path files cov w Hd)
    as (succeeded & failed & w' & files' & Hrun & _ & _ & Hs & Hsum).
  exists succeeded, failed, w'. auto.
Qed.

Lemma per_song_counts_witness :
  exists succeeded failed w',
    add_album_art_per_song online "Album" two_songs = (Return (succeeded, failed), w') /\
    (succeeded <= 2)%nat /\ (2 <= succeeded + failed <= 2 * 2)%nat.
Proof.
  apply (per_song_counts online "Album"
           (mkDir [readonly_file "a - b.m4a" "a - b" [];
                   good_file "song.m4a" "song"
                     [(key_nam, ["Yesterday"]); (key_ART, ["Beatles"])]] None) two_songs).
  reflexivity.
Defined.

(** Per-file mode never looks at or removes the folder's [cover.jpg] and
    touches no other folder.  Every matched file is afterwards as it was,
    or differs only in its cover atom; in particular the text tags of a
    file that could be parsed are what they were. *)
Theorem per_song_effect (E : externals) (folder_path : string) (d : directory) (w : world) :
  fs w !! folder_path = Some d ->
  let w' := snd (add_album_art_per_song E folder_path w) in
  exists d',
    fs w' !! folder_path = Some d' /\
    cover_jpg d' = cover_jpg d /\
    Forall2 recovered (m4a_files d) (m4a_files d') /\
    (forall other, other <> folder_path -> fs w' !! other = fs w !! other) /\
    (forall i f audio,
       m4a_files d !! i = Some f -> content f = inr audio ->
       exists f' audio',
         m4a_files d' !! i = Some f' /\ content f' = inr audio' /\
         text_tags audio' = text_tags audio).
Proof.
  intros Hd w'. destruct d as [files cov].
  destruct (add_album_art_per_song_run E folder_path files cov w Hd)
    as (succeeded & failed & w1 & files' & Hrun & Hfs & Hall & _).
  subst w'. rewrite Hrun. simpl snd. exists (mkDir files' cov).
  split; [rewrite Hfs; apply lookup_insert_eq |].
  split; [reflexivity |]. split; [exact Hall |].
  split; [intros other Hother; rewrite Hfs; apply lookup_insert_ne; congruence |].
  intros i f audio Hi Hc. simpl in *.
  destruct (Forall2_lookup_l _ _ _ _ _ Hall Hi) as (f' & Hi' & Hrec).
  exists f'.
  destruct Hrec as [-> | (audio0 & art & Hc0 & _ & ->)].
  - exists audio. auto.
  - rewrite Hc in Hc0. injection Hc0 as <-.
    eexists. split; [exact Hi' |]. split; reflexivity.
Qed.

Lemma per_song_effect_witness :
  exists d',
    fs (snd (add_album_art_per_song online "Album" corrupt_cover)) !! "Album" = Some d' /\
    cover_jpg d' = Some (mkCover (inr [Byte.x00; Byte.x2a]) None).
Proof.
  destruct (per_song_effect online "Album"
              (mkDir abbey_road (Some (mkCover (inr [Byte.x00; Byte.x2a]) None)))
              corrupt_cover eq_refl)
    as (d' & Hd' & Hcov & _).
  exists d'. split; [exact Hd' | exact Hcov].
Defined.

(** ** Per-file mode: title and artist of a song *)

Lemma app_cons (c : ascii) (a b : string) : String c a +:+ b = String c (a +:+ b).
Proof. reflexivity. Qed.

Lemma app_nil (b : string) : EmptyString +:+ b = b.
Proof. reflexivity. Qed.

Lemma substring_all (s : string) : String.substring 0 (String.length s) s = s.
Proof. induction s as [| c s IH]; [reflexivity |]. simpl. rewrite IH. reflexivity. Qed.

Lemma prefix_split (sep s : string) :
  String.prefix sep s = true ->
  s = sep +:+ String.substring (String.length sep) (String.length s - String.length sep) s.
Proof.
  revert s. induction sep as [| c sep IH]; intros s Hpre.
  - simpl. rewrite Nat.sub_0_r, substring_all. reflexivity.
  - destruct s as [| c' s]; [discriminate |]. simpl in Hpre.
    destruct (ascii_dec c c') as [<- | Hne]; [| discriminate].
    cbn. rewrite app_cons, <- (IH s Hpre). reflexivity.
Qed.

Lemma prefix_app (sep rest : string) : String.prefix sep (sep +:+ rest) = true.
Proof.
  induction sep as [| c sep IH]; [destruct rest; reflexivity |].
  rewrite app_cons. simpl. destruct (ascii_dec c c); [exact IH | contradiction].
Qed.

Lemma split_once_unfold (sep s : string) :
  split_once sep s
  = if String.prefix sep s then
      Some (EmptyString, String.substring (String.length sep)
                           (String.length s - String.length sep) s)
    else
      match s with
      | EmptyString => None
      | String c rest =>
          match split_once sep rest with
          | Some (before, after) => Some (String c before, after)
          | None => None
          end
      end.
Proof. destruct s; reflexivity. Qed.

Lemma split_once_sound (sep s a b : string) :
  split_once sep s = Some (a, b) -> s = a +:+ sep +:+ b.
Proof.
  revert a b. induction s as [| c s IH]; intros a b; rewrite split_once_unfold.
  - destruct (String.prefix sep EmptyString) eqn:Hpre; [| discriminate].
    intros [= <- <-]. apply (prefix_split sep EmptyString Hpre).
  - destruct (String.prefix sep (String c s)) eqn:Hpre.
    + intros [= <- <-]. apply (prefix_split sep (String c s) Hpre).
    + destruct (split_once sep s) as [[a0 b0] |]; [| discriminate].
      intros [= <- <-]. rewrite app_cons. f_equal. apply IH. reflexivity.
Qed.

Lemma split_once_first (sep s a b : string) :
  split_once sep s = Some (a, b) ->
  forall a' b', s = a' +:+ sep +:+ b' -> (String.length a <= String.length a')%nat.
Proof.
  revert a b. induction s as [| c s IH]; intros a b; rewrite split_once_unfold.
  - destruct (String.prefix sep EmptyString); [| discriminate].
    intros [= <- <-] a' b' _. simpl. lia.
  - destruct (String.prefix sep (String c s)) eqn:Hpre.
    + intros [= <- <-] a' b' _. simpl. lia.
    + destruct (split_once sep s) as [[a0 b0] |] eqn:Hrest; [| discriminate].
      intros [= <- <-] a' b' Hs.
      destruct a' as [| c' a'].
      * rewrite app_nil in Hs. rewrite Hs, prefix_app in Hpre. discriminate.
      * rewrite app_cons in Hs. injection Hs as _ Hs. simpl.
        apply le_n_S. apply (IH a0 b0 eq_refl a' b' Hs).
Qed.

Lemma split_once_none (sep s : string) :
  split_once sep s = None -> forall a b, s <> a +:+ sep +:+ b.
Proof.
  induction s as [| c s IH]; rewrite split_once_unfold.
  - destruct (String.prefix sep EmptyString) eqn:Hpre; [discriminate |].
    intros _ a b Hs. destruct a as [| c' a]; [| rewrite app_cons in Hs; discriminate].
    rewrite app_nil in Hs. rewrite Hs, prefix_app in Hpre. discriminate.
  - destruct (String.prefix sep (String c s)) eqn:Hpre; [discriminate |].
    destruct (split_once sep s) as [[a0 b0] |] eqn:Hrest; [discriminate |].
    intros _ a b Hs. destruct a as [| c' a].
    + rewrite app_nil in Hs. rewrite Hs, prefix_app in Hpre. discriminate.
    + rewrite app_cons in Hs. injection Hs as _ Hs. exact (IH eq_refl a b Hs).
Qed.

Lemma append_same_length (a a' x x' : string) :
  a +:+ x = a' +:+ x' -> String.length a = String.length a' -> a = a' /\ x = x'.
Proof.
  revert a'. induction a as [| c a IH]; intros [| c' a'] Happ Hlen; try discriminate.
  - split; [reflexivity | exact Happ].
  - rewrite !app_cons in Happ. simpl in Hlen. injection Happ as -> Happ.
    injection Hlen as Hlen.
    destruct (IH a' Happ Hlen) as [-> ->]. split; reflexivity.
Qed.

(** [split_once] finds the first occurrence of the separator. *)
Lemma split_once_complete (sep s a b : string) :
  s = a +:+ sep +:+ b ->
  (forall a' b', s = a' +:+ sep +:+ b' -> (String.length a <= String.length a')%nat) ->
  split_once sep s = Some (a, b).
Proof.
  intros Hs Hfirst.
  destruct (split_once sep s) as [[a0 b0] |] eqn:Hsplit.
  - pose proof (split_once_sound sep s a0 b0 Hsplit) as Hs0.
    pose proof (split_once_first sep s a0 b0 Hsplit a b Hs) as Hle.
    pose proof (Hfirst a0 b0 Hs0) as Hge.
    rewrite Hs in Hs0.
    destruct (append_same_length a a0 _ _ Hs0 ltac:(lia)) as [<- Hrest].
    apply (inj (String.app sep)) in Hrest. subst b0. reflexivity.
  - exfalso. exact (split_once_none sep s Hsplit a b Hs).
Qed.

(** [strip] removes every white-space character from both ends and none
    from the middle; U+200B, which is no white space for Python, stays. *)
Lemma strip_unicode_spaces :
  strip (unicode_spaces +:+ "a" +:+ unicode_spaces +:+ "b" +:+ unicode_spaces)
  = "a" +:+ unicode_spaces +:+ "b" /\
  strip unicode_spaces = EmptyString /\
  strip (utf8 [226; 128; 139]%nat +:+ " a") = utf8 [226; 128; 139]%nat +:+ " a".
Proof. vm_compute. repeat split. Qed.

(** Where per-file mode takes title and artist from (tags readable).
    If either tag is non-empty the tags are used as they are and the file
    name is ignored, so a file with only an artist tag is searched without
    a title.  Otherwise the file stem is cut at its first [" - "] into
    title and artist, both stripped of surrounding white space as
    [str.strip()] understands it (the Unicode spaces included); a stem
    without [" - "] is the title as a whole, unstripped. *)
Theorem song_search_text_sources (p : m4a_path) (audio : MP4) (w : world) :
  (forall key, text_tags audio !! key <> Some []) ->
  let title := tag audio key_nam in
  let artist := tag audio key_ART in
  (truthy_str title = true \/ truthy_str artist = true ->
   song_search_text p audio w = (Return (title, artist), w)) /\
  (truthy_str title = false -> truthy_str artist = false ->
   forall t a,
     stem p = t +:+ " - " +:+ a ->
     (forall t' a', stem p = t' +:+ " - " +:+ a' ->
                    (String.length t <= String.length t')%nat) ->
     song_search_text p audio w = (Return (Some (strip t), Some (strip a)), w)) /\
  (truthy_str title = false -> truthy_str artist = false ->
   (forall t a, stem p <> t +:+ " - " +:+ a) ->
   song_search_text p audio w = (Return (Some (stem p), artist), w)).
Proof.
  intros Htags title artist.
  assert (Hrun : song_search_text p audio w
    = (Return (if negb (truthy_str title) && negb (truthy_str artist) then
                 match split_once " - " (stem p) with
                 | Some (before, after) => (Some (strip before), Some (strip after))
                 | None => (Some (stem p), artist)
                 end
               else (title, artist)), w)).
  { unfold song_search_text.
    rewrite !(bind_return _ _ _ _ _ (first_or_none_run audio _ w (Htags _))).
    reflexivity. }
  rewrite Hrun. split; [| split].
  - intros [-> | ->]; [reflexivity |]. rewrite andb_false_r. reflexivity.
  - intros -> -> t a Hstem Hfirst. simpl.
    rewrite (split_once_complete " - " (stem p) t a Hstem Hfirst). reflexivity.
  - intros -> -> Hnone. simpl.
    destruct (split_once " - " (stem p)) as [[t a] |] eqn:Hsplit; [| reflexivity].
    exfalso. exact (Hnone t a (split_once_sound _ _ _ _ Hsplit)).
Qed.

Lemma song_search_text_sources_witness :
  song_search_text
    (mkPath "Album" 0 (spaced_stem +:+ ".m4a") spaced_stem) (tags_of []) no_folders
  = (Return (Some "Title", Some "Artist - Live"), no_folders).
Proof.
  assert (Htags : forall key, text_tags (tags_of []) !! key <> Some []).
  { intros key. unfold tags_of. simpl. rewrite lookup_empty. discriminate. }
  exact (proj1 (proj2 (song_search_text_sources
                         (mkPath "Album" 0 (spaced_stem +:+ ".m4a") spaced_stem)
                         (tags_of []) no_folders Htags))
           eq_refl eq_refl "Title " (no_break_space +:+ "Artist - Live" +:+ ideographic_space)
           eq_refl
           (split_once_first " - " spaced_stem "Title "
              (no_break_space +:+ "Artist - Live" +:+ ideographic_space) eq_refl)).
Defined.

(** ** The command lines *)

Lemma same_pacing_refl (w : world) : same_pacing w w.
Proof. reflexivity. Qed.

Lemma same_pacing_trans (w1 w2 w3 : world) :
  same_pacing w1 w2 -> same_pacing w2 w3 -> same_pacing w1 w3.
Proof. unfold same_pacing. intros H12 H23. rewrite H23. exact H12. Qed.

Lemma keeps_pacing_print (line : string) : keeps same_pacing (print line).
Proof. intros w. reflexivity. Qed.

Lemma keeps_pacing_sys_exit {A : Type} (code : Z) : keeps same_pacing (@sys_exit A code).
Proof. intros w. reflexivity. Qed.

Lemma keeps_pacing_is_dir (E : externals) (folder_path : string) :
  keeps same_pacing (is_dir E folder_path).
Proof.
  intros w. unfold is_dir. destruct (fs w !! folder_path); [reflexivity |].
  destruct (Path_status E folder_path); reflexivity.
Qed.

Lemma keeps_pacing_glob_m4a (E : externals) (folder_path : string) :
  keeps same_pacing (glob_m4a E folder_path).
Proof.
  intros w. unfold glob_m4a. destruct (fs w !! folder_path); [reflexivity |].
  destruct (Path_status E folder_path); reflexivity.
Qed.

Lemma keeps_pacing_MP4_open (p : m4a_path) : keeps same_pacing (MP4_open p).
Proof.
  intros w. unfold MP4_open. destruct (lookup_file w p) as [f |]; [| reflexivity].
  destruct (content f); reflexivity.
Qed.

Lemma keeps_pacing_MP4_save (p : m4a_path) (audio : MP4) :
  keeps same_pacing (MP4_save p audio).
Proof.
  intros w. unfold MP4_save, store_file. destruct (lookup_file w p) as [f |]; [| reflexivity].
  destruct (save_error f); [reflexivity |].
  simpl. destruct (fs w !! parent p); reflexivity.
Qed.

#[export] Hint Resolve same_pacing_refl same_pacing_trans keeps_pacing_print
  keeps_pacing_sys_exit keeps_pacing_is_dir keeps_pacing_glob_m4a
  keeps_pacing_MP4_open keeps_pacing_MP4_save : monad.

Ltac kpace := kstep_for same_pacing same_pacing_refl same_pacing_trans.

(** The metadata tool works on the disk only: whatever its arguments and
    whatever the folder holds, a run makes no request and no delay. *)
Theorem metadata_main_no_network (E : externals) (argv : list string) (w : world) :
  same_pacing w (snd (metadata_main E argv w)).
Proof.
  revert w. change (keeps same_pacing (metadata_main E argv)).
  unfold metadata_main, update_m4a_metadata, update_one. repeat kpace.
Qed.

(** Arguments the artwork tool rejects (none at all, or [album] with no
    folder after it) end it with exit status 1 after the usage or error
    lines, before any folder is looked at. *)
Theorem albumArt_main_rejected (E : externals) (argv : list string) (w : world) :
  ~ argv_accepted argv ->
  exists w',
    albumArt_main E argv w = (SystemExit 1, w') /\ same_fs w w' /\ same_pacing w w'.
Proof.
  intros Hno. unfold albumArt_main, argv_accepted in *.
  destruct (length argv <? 2)%nat eqn:Hlt2.
  { eexists. split; [reflexivity |]. split; reflexivity. }
  apply Nat.ltb_ge in Hlt2.
  case_bool_decide as Hmode.
  - destruct (length argv <? 3)%nat eqn:Hlt3.
    + eexists. split; [reflexivity |]. split; reflexivity.
    + apply Nat.ltb_ge in Hlt3. exfalso. apply Hno. split; [lia | intros _; lia].
  - exfalso. apply Hno. split; [lia | intros Hm; contradiction].
Qed.

Lemma albumArt_main_rejected_witness :
  exists w',
    albumArt_main online ["albumArt.py"; "album"] two_songs = (SystemExit 1, w') /\
    same_fs two_songs w' /\ same_pacing two_songs w'.
Proof.
  apply (albumArt_main_rejected online ["albumArt.py"; "album"] two_songs).
  intros [_ Halbum]. specialize (Halbum eq_refl). simpl in Halbum. lia.
Defined.

(** The metadata tool ends with exit status 1, and without touching the
    disk, when it gets fewer than two arguments or a command other than
    [set] and [del], even for a valid folder. *)
Theorem metadata_main_rejected (E : externals) (argv : list string) (w : world) :
  (length argv < 3)%nat \/ (argv !! 1%nat <> Some "set" /\ argv !! 1%nat <> Some "del") ->
  exists w', metadata_main E argv w = (SystemExit 1, w') /\ same_fs w w'.
Proof.
  intros Hbad. unfold metadata_main.
  destruct (length argv <? 3)%nat eqn:Hlt3.
  { eexists. split; [reflexivity | reflexivity]. }
  apply Nat.ltb_ge in Hlt3.
  destruct Hbad as [Hlen | [Hset Hdel]]; [lia |].
  destruct argv as [| script [| command rest]]; simpl in Hlt3; try lia.
  simpl in Hset, Hdel. cbn [lookup list_lookup default from_option id].
  change ((script :: command :: rest) !! 1%nat) with (Some command). simpl default.
  destruct (String.eqb command "set") eqn:Heq_set.
  { apply String.eqb_eq in Heq_set. subst command. contradiction. }
  destruct (String.eqb command "del") eqn:Heq_del.
  { apply String.eqb_eq in Heq_del. subst command. contradiction. }
  eexists. split; [reflexivity | reflexivity].
Qed.

Lemma metadata_main_rejected_witness :
  exists w',
    metadata_main offline ["metadata.py"; "clear"; "Album"] old_album = (SystemExit 1, w') /\
    same_fs old_album w'.
Proof.
  apply (metadata_main_rejected offline ["metadata.py"; "clear"; "Album"] old_album).
  right. split; discriminate.
Defined.

Lemma update_m4a_metadata_run (E : externals) (folder_path : string)
    (album_name : option string) (d : directory) (w : world) :
  fs w !! folder_path = Some d ->
  exists w',
    update_m4a_metadata E folder_path album_name w = (Return tt, w') /\
    fs w' = <[folder_path :=
               mkDir (retagged album_name <$> m4a_files d) (cover_jpg d)]> (fs w).
Proof.
  intros Hd. unfold update_m4a_metadata.
  rewrite (bind_return _ _ _ _ _ (is_dir_true _ _ _ _ Hd)).
  cbv beta. change (negb true) with false. cbv iota.
  rewrite (bind_return _ _ _ _ _ (glob_m4a_run _ _ _ _ Hd)).
  destruct d as [files cov].
  exact (update_loop album_name folder_path cov files [] w Hd).
Qed.

(** The three forms of the metadata command line on a valid folder.
    [set <folder>] works with the folder's own name and
    [set <folder> <album>] with the third argument (anything after it is
    ignored).  A name that is not empty becomes the album tag of every
    matched file that can be parsed and saved; an empty name (the name of
    ["."], or an empty third argument) sets nothing: the run leaves the
    disk as [del <folder>] does, which removes the album tag.  Each form
    ends normally and prints its closing line last; files that cannot be
    parsed or saved stay as they are, and so do the other tags. *)
Theorem metadata_main_effect (E : externals) (script folder_path : string)
    (d : directory) (w : world) :
  fs w !! folder_path = Some d ->
  let after album_name :=
    <[folder_path := mkDir (retagged album_name <$> m4a_files d) (cover_jpg d)]> (fs w) in
  (exists w',
     metadata_main E [script; "set"; folder_path] w = (Return tt, w') /\
     fs w' = after (Some (Path_name E folder_path)) /\
     (Path_name E folder_path = EmptyString -> fs w' = after None) /\
     head (log w') = Some (Print ("Album set to: " +:+ Path_name E folder_path))) /\
  (forall album extra,
   exists w',
     metadata_main E (script :: "set" :: folder_path :: album :: extra) w = (Return tt, w') /\
     fs w' = after (Some album) /\
     (album = EmptyString -> fs w' = after None) /\
     head (log w') = Some (Print ("Album set to: " +:+ album))) /\
  (forall extra,
   exists w',
     metadata_main E (script :: "del" :: folder_path :: extra) w = (Return tt, w') /\
     fs w' = after None /\
     head (log w') = Some (Print "Album tags removed")) /\
  (forall album_name i f,
     m4a_files d !! i = Some f ->
     exists f',
       (after album_name !! folder_path ≫= fun d' => m4a_files d' !! i) = Some f' /\
       (writable f = false -> f' = f) /\
       (forall audio,
          content f = inr audio -> save_error f = None ->
          exists audio',
            f' = mkFile (file_name f) (file_stem f) (inr audio') None /\
            text_tags audio' !! key_alb
            = match album_name with
              | Some (String c rest) => Some [String c rest]
              | _ => None
              end /\
            (forall key, key <> key_alb ->
                         text_tags audio' !! key = text_tags audio !! key) /\
            covr audio' = covr audio)).
Proof.
  intros Hd after.
  assert (Hempty : forall album, album = EmptyString ->
                                 after (Some album) = after None).
  { intros album ->. reflexivity. }
  split; [| split; [| split]].
  - destruct (update_m4a_metadata_run E folder_path (Some (Path_name E folder_path)) d w Hd)
      as (w1 & Hrun & Hfs).
    unfold metadata_main. simpl.
    rewrite (bind_return _ _ _ _ _ Hrun).
    eexists. split; [reflexivity |]. split; [exact Hfs |].
    split; [| reflexivity].
    intros Hname. cbn [fs]. rewrite Hfs. apply Hempty. exact Hname.
  - intros album extra.
    destruct (update_m4a_metadata_run E folder_path (Some album) d w Hd) as (w1 & Hrun & Hfs).
    unfold metadata_main. simpl.
    rewrite (bind_return _ _ _ _ _ Hrun).
    eexists. split; [reflexivity |]. split; [exact Hfs |].
    split; [| reflexivity].
    intros Halbum. cbn [fs]. rewrite Hfs. apply Hempty. exact Halbum.
  - intros extra.
    destruct (update_m4a_metadata_run E folder_path None d w Hd) as (w1 & Hrun & Hfs).
    unfold metadata_main. simpl.
    rewrite (bind_return _ _ _ _ _ Hrun).
    eexists. split; [reflexivity |]. split; [exact Hfs | reflexivity].
  - intros album_name i f Hi. exists (retagged album_name f).
    split.
    { unfold after. rewrite lookup_insert_eq. simpl.
      rewrite list_lookup_fmap, Hi. reflexivity. }
    split.
    { unfold writable, retagged. intros Hw.
      destruct (content f); [reflexivity |].
      destruct (save_error f); [reflexivity | discriminate]. }
    intros audio Hc Hs. unfold retagged. rewrite Hc, Hs.
    eexists. split; [reflexivity |]. simpl.
    split; [| split; [| reflexivity]].
    + destruct album_name as [[| c rest] |]; simpl;
        [apply lookup_delete_eq | apply lookup_insert_eq | apply lookup_delete_eq].
    + intros key Hkey. destruct (truthy_str album_name).
      * rewrite lookup_insert_ne by congruence. apply lookup_delete_ne. congruence.
      * apply lookup_delete_ne. congruence.
Qed.

Lemma metadata_main_effect_witness :
  exists w',
    metadata_main offline ["metadata.py"; "set"; "Music/Album"]
      (mkWorld {[ "Music/Album" := mkDir abbey_road None ]} [])
    = (Return tt, w') /\
    fs w' = <[ "Music/Album" := mkDir (retagged (Some "Album") <$> abbey_road) None ]>
              {[ "Music/Album" := mkDir abbey_road None ]} /\
    head (log w') = Some (Print "Album set to: Album").
Proof.
  assert (Hd : fs (mkWorld {[ "Music/Album" := mkDir abbey_road None ]} []) !! "Music/Album"
               = Some (mkDir abbey_road None)) by reflexivity.
  destruct (metadata_main_effect offline "metadata.py" "Music/Album"
              (mkDir abbey_road None)
              (mkWorld {[ "Music/Album" := mkDir abbey_road None ]} []) Hd)
    as [(w' & Hrun & Hfs & _ & Hlast) _].
  exists w'. split; [exact Hrun |]. split; [exact Hfs | exact Hlast].
Defined.

Lemma retagged_retagged (first second : option string) (f : m4a_file) :
  retagged second (retagged first f) = retagged second f.
Proof.
  unfold retagged.
  destruct (content f) as [msg | audio] eqn:Hc; [rewrite Hc; reflexivity |].
  destruct (save_error f) eqn:Hs; [rewrite Hc, Hs; reflexivity |].
  simpl. f_equal. f_equal. f_equal.
  destruct (truthy_str first); simpl.
  - rewrite delete_insert_eq, delete_delete_eq. reflexivity.
  - rewrite delete_delete_eq. reflexivity.
Qed.

(** Editing the album tag twice leaves the disk as the second edit alone
    would: the last value wins, a deletion after a set deletes, and
    repeating an edit changes nothing more. *)
Theorem update_m4a_metadata_last_wins (E : externals) (folder_path : string)
    (first second : option string) (d : directory) (w : world) :
  fs w !! folder_path = Some d ->
  fs (snd (update_m4a_metadata E folder_path second
             (snd (update_m4a_metadata E folder_path first w))))
  = fs (snd (update_m4a_metadata E folder_path second w)).
Proof.
  intros Hd.
  destruct (update_m4a_metadata_run E folder_path first d w Hd) as (w1 & Hrun1 & Hfs1).
  destruct (update_m4a_metadata_run E folder_path second d w Hd) as (w2 & Hrun2 & Hfs2).
  rewrite Hrun1, Hrun2. cbn [snd].
  destruct (update_m4a_metadata_run E folder_path second
              (mkDir (retagged first <$> m4a_files d) (cover_jpg d)) w1)
    as (w3 & Hrun3 & Hfs3).
  { rewrite Hfs1. apply lookup_insert_eq. }
  rewrite Hrun3. cbn [snd]. cbn [m4a_files cover_jpg] in Hfs3.
  rewrite Hfs3, Hfs2, Hfs1, insert_insert_eq. f_equal. f_equal.
  rewrite <- list_fmap_compose. apply list_fmap_ext.
  intros i f _. apply retagged_retagged.
Qed.

Lemma update_m4a_metadata_last_wins_witness :
  fs (snd (update_m4a_metadata offline "Album" None
             (snd (update_m4a_metadata offline "Album" (Some "New") old_album))))
  = fs (snd (update_m4a_metadata offline "Album" None old_album)).
Proof.
  apply (update_m4a_metadata_last_wins offline "Album" (Some "New") None
           (mkDir [good_file "song.m4a" "song" [(key_alb, ["Old"])]] None) old_album).
  reflexivity.
Defined.

(** ** The placeholder *)

(** The placeholder is already normalized.  Under the codec laws it
    decodes to a square RGB image of the requested size, and normalizing
    it to that size converts nothing and scales nothing: the result is the
    decoded image encoded again. *)
Theorem placeholder_is_normalized (E : externals) (max_size : N) :
  codec_laws E ->
  exists img,
    Image_open E (create_default_artwork E max_size) = inr img /\
    mode img = "RGB" /\ width img = max_size /\ height img = max_size /\
    forall w,
      resize_image E (create_default_artwork E max_size) max_size w
      = (Return (Some (Image_save_JPEG E img 95)), w).
Proof.
  intros L. unfold create_default_artwork.
  destruct (open_save E L (Image_new "RGB" (max_size, max_size) [50; 50; 50]%N) 95%N eq_refl)
    as (img & Hopen & Hmode & Hw & Hh).
  simpl in Hw, Hh. exists img.
  split; [exact Hopen |]. split; [exact Hmode |]. split; [exact Hw |]. split; [exact Hh |].
  intros w. rewrite (resize_image_decoded E _ max_size img w Hopen).
  rewrite normalized_fixpoint; [reflexivity | exact Hmode | lia | lia].
Qed.

Lemma placeholder_is_normalized_witness :
  exists img,
    Image_open online (create_default_artwork online 512) = inr img /\
    mode img = "RGB" /\ width img = 512%N /\ height img = 512%N /\
    forall w,
      resize_image online (create_default_artwork online 512) 512 w
      = (Return (Some (Image_save_JPEG online img 95)), w).
Proof. apply (placeholder_is_normalized online 512), toy_codec_laws. Defined.

(** ** Two runs with a file that cannot be saved *)

Lemma cover_kept_when_a_write_fails_witness :
  same_cover "Album"
    (one_folder (mkDir [readonly_file "a.m4a" "a" []; good_file "b.m4a" "b" []]
                   (Some (mkCover (inr (toy_encode 3 2)) None))))
    (snd (add_album_art_to_folder online "Album"
            (one_folder (mkDir [readonly_file "a.m4a" "a" []; good_file "b.m4a" "b" []]
                           (Some (mkCover (inr (toy_encode 3 2)) None)))))).
Proof.
  apply (cover_kept_when_a_write_fails online "Album" 1 1).
  - vm_compute. reflexivity.
  - discriminate.
Defined.


(** ** Folders the artwork tool cannot work in *)















(** ** Resolution: what the applicator is handed *)









(** ** The exit status of the artwork tool *)



